(** * docker_service: check-mode, diff and convergence of [ContainerManager]

    A shallow embedding of [cloud/docker/docker_service.py]: the commands
    [cmd_up], [cmd_down], [cmd_stop], [cmd_restart] and [cmd_scale] of
    [ContainerManager], run against an abstract container runtime, and the
    properties of their [changed] / [diff] results. *)

From stdpp Require Import gmap strings list fin_maps.
From Stdlib Require Import ZArith.

Local Open Scope string_scope.
Local Open Scope list_scope.
Local Open Scope Z_scope.

(** ** Data model *)

(** One entry of [inspection['NetworkSettings']['Networks']]. *)
Record Network := {
  Aliases : list string;
  GlobalIPv6Address : string;
  GlobalIPv6PrefixLen : Z;
  IPAddress : string;
  IPPrefixLen : Z;
  Links : list string;
  MacAddress : string;
}.

(** The part of [container.inspect()] that [cmd_up] reads. *)
Record Inspection := {
  Cmd : list string;
  Labels : gmap string string;
  Image : string;
  Running : bool;
  Status : string;
  Networks : gmap string Network;
}.

(** A container as the runtime reports it.  [config_hash] is the
    configuration fingerprint the container was created with. *)
Record Container := {
  container_id : string;
  container_name : string;
  short_id : string;
  config_hash : string;
  inspect : Inspection;
}.

Definition is_running (c : Container) : bool := Running (inspect c).

(** A service of the project: its name and the fingerprint of its current
    definition.  The definition is fixed for the whole invocation. *)
Record Service := {
  service_name : string;
  service_hash : string;
}.

Record Project := {
  project_name : string;
  services : list Service;
}.

(** The live state of the runtime: the containers of each service. *)
Abbreviation Snapshot := (gmap string (list Container)).

(** Modelled from the spec: [Service.containers] belongs to the compose
    library; the runtime state snapshot returns the existing containers of a
    service, all of them with [stopped=True] and the running ones only with
    [stopped=False]. *)
Definition containers (snap : Snapshot) (service : Service) (stopped : bool)
  : list Container :=
  let existing := default [] (snap !! service_name service) in
  if stopped then existing else filter (fun c => is_running c = true) existing.

(** ** Convergence plans *)

Inductive Action := Create | Recreate | Start | Noop.

Definition action_name (a : Action) : string :=
  match a with
  | Create => "create"
  | Recreate => "recreate"
  | Start => "start"
  | Noop => "noop"
  end.

Global Instance Action_eq_dec : EqDecision Action.
Proof. solve_decision. Defined.

Record ConvergencePlan := {
  action : Action;
  plan_containers : list Container;
}.

Record ConvergenceStrategy := {
  forceRecreate : bool;
  allowRecreate : bool;
}.

(** Modelled from the spec: [convergence_strategy_from_opts] is imported
    from compose; the planner options are [forceRecreate] and
    [allowRecreate], read from the [--force-recreate] and [--no-recreate]
    entries of the options. *)
Definition convergence_strategy_from_opts (options : gmap string bool)
  : ConvergenceStrategy :=
  {| forceRecreate := default false (options !! "--force-recreate");
     allowRecreate := negb (default false (options !! "--no-recreate")) |}.

Definition diverged (service : Service) (c : Container) : bool :=
  bool_decide (config_hash c ≠ service_hash service).

(** Modelled from the spec: [Service.convergence_plan] belongs to the
    compose library; the per-service decision rule of the convergence
    planner: no container gives create; force-recreate gives recreate of all
    existing containers; a drifted fingerprint gives recreate when recreation
    is allowed; a container that is not running gives start; otherwise
    nothing is done. *)
Definition convergence_plan (snap : Snapshot) (service : Service)
    (strategy : ConvergenceStrategy) : ConvergencePlan :=
  let existing := containers snap service true in
  match existing with
  | [] => {| action := Create; plan_containers := [] |}
  | _ :: _ =>
    if forceRecreate strategy then
      {| action := Recreate; plan_containers := existing |}
    else if existsb (diverged service) existing && allowRecreate strategy then
      {| action := Recreate; plan_containers := existing |}
    else if existsb (fun c => negb (is_running c)) existing then
      {| action := Start;
         plan_containers := filter (fun c => is_running c = false) existing |}
    else
      {| action := Noop; plan_containers := [] |}
  end.

(** ** Results *)

(** [dict(id=container.id, name=container.name, short_id=container.short_id)] *)
Record ContainerRef := {
  ref_id : string;
  ref_name : string;
  ref_short_id : string;
}.

Definition container_ref (c : Container) : ContainerRef :=
  {| ref_id := container_id c;
     ref_name := container_name c;
     ref_short_id := short_id c |}.

(** What [result['diff'][service.name]] holds under an action key: a list of
    container descriptions, a list of container names ([deleted]) or a
    signed count ([scale]). *)
Inductive DiffEntry :=
| DiffContainers (l : list ContainerRef)
| DiffNames (l : list string)
| DiffDelta (delta : Z).

Abbreviation Diff := (gmap string (gmap string DiffEntry)).

Record NetworkFacts := {
  aliases : list string;
  globalIPv6 : string;
  globalIPv6PrefixLen : Z;
  fact_IPAddress : string;
  fact_IPPrefixLen : Z;
  links : list string;
  macAddress : string;
}.

Record Facts := {
  fact_cmd : list string;
  fact_labels : gmap string string;
  fact_image : string;
  state_running : bool;
  state_status : string;
  networks : gmap string NetworkFacts;
}.

Abbreviation AnsibleFacts := (gmap string (gmap string Facts)).

(** The values of the result dictionary. *)
Inductive Value :=
| VBool (b : bool)
| VDiff (d : Diff)
| VFacts (f : AnsibleFacts).

Abbreviation Result := (gmap string Value).

(** [dict(changed=..., diff=...)] *)
Definition result_dict (changed : bool) (diff : Diff) : Result :=
  {[ "changed" := VBool changed; "diff" := VDiff diff ]}.

(** [result.update(other)]: every key of [other] replaces the one of
    [result]. *)
Definition update (result other : Result) : Result := other ∪ result.

Definition changed_of (result : Result) : option bool :=
  match result !! "changed" with
  | Some (VBool b) => Some b
  | _ => None
  end.

Definition diff_of (result : Result) : option Diff :=
  match result !! "diff" with
  | Some (VDiff d) => Some d
  | _ => None
  end.

Definition facts_of (result : Result) : option AnsibleFacts :=
  match result !! "ansible_facts" with
  | Some (VFacts f) => Some f
  | _ => None
  end.

(** ** The module's parameters *)

Inductive State := present | absent.

(** The attributes of [ContainerManager] the commands read.  [service_names]
    is [self.services]; an option that was not given ([None]) is the empty
    list or the empty map, which the code treats alike. *)
Record ContainerManager := {
  project : Project;
  state : State;
  check_mode : bool;
  diff : bool;
  service_names : list string;
  dependencies : bool;
  recreate : bool;
  build : bool;
  force_recreate : bool;
  remove_images : option string;
  remove_volumes : bool;
  remove_orphans : bool;
  stopped : bool;
  restarted : bool;
  scale : gmap string Z;
}.

(** ** The runtime client *)

(** The mutating calls the module issues on the compose project.  The
    convergence strategy and the build action of [project.up] are both
    derived from the options dictionary, which stands for them here. *)
Inductive Call :=
| ProjectUp (names : list string) (start_deps : bool)
            (up_options : gmap string bool) (detached : bool)
            (orphans : bool)
| ProjectDown (image_type : option string) (volumes : bool) (orphans : bool)
| ProjectStop (names : list string)
| ProjectRestart (names : list string)
| ServiceScale (service : string) (count : Z).

(** A call returns normally or raises; either way it may have changed the
    containers. *)
Inductive CallResult :=
| Done (snap : Snapshot)
| Raised (exc : string) (snap : Snapshot).

Definition Runtime := Call → Snapshot → CallResult.

(** What a run has done so far: the containers as they are now and the
    calls issued, oldest first. *)
Record World := {
  snapshot : Snapshot;
  trace : list Call;
}.

Inductive Outcome (A : Type) :=
| Ok (a : A) (w : World)
| Failed (msg : string) (w : World).
Arguments Ok {A} a w.
Arguments Failed {A} msg w.

Definition M (A : Type) : Type := World → Outcome A.

Global Instance M_ret : MRet M := fun A a w => Ok a w.

Global Instance M_bind : MBind M := fun A B f m w =>
  match m w with
  | Ok a w' => f a w'
  | Failed msg w' => Failed msg w'
  end.

Definition get_snapshot : M Snapshot := fun w => Ok (snapshot w) w.

(** Modelled from the spec: [self.fail] hands the message to
    [AnsibleDockerClient.fail], which is not part of this file; every error
    aborts the current invocation. *)
Definition fail {A : Type} (msg : string) : M A := fun w => Failed msg w.

Definition issued (c : Call) (snap : Snapshot) (w : World) : World :=
  {| snapshot := snap; trace := trace w ++ [c] |}.

(** [try: <call> except Exception as exc: <handler>] *)
Definition try_except (rt : Runtime) (c : Call) (handler : string → M unit)
  : M unit :=
  fun w =>
    match rt c (snapshot w) with
    | Done snap => Ok () (issued c snap w)
    | Raised exc snap => handler exc (issued c snap w)
    end.

Fixpoint foldM {A B : Type} (f : A → B → M A) (l : list B) (a : A) : M A :=
  match l with
  | [] => mret a
  | x :: l' => a' ← f a x; foldM f l' a'
  end.

(** ** The commands *)

Section Commands.

Variable rt : Runtime.
Variable self : ContainerManager.

(** [not service_names or service.name in service_names] *)
Definition considered (names : list string) (service : Service) : bool :=
  bool_decide (names = []) || bool_decide (service_name service ∈ names).

Definition up_options : gmap string bool :=
  let up_options : gmap string bool :=
    {[ "--no-recreate" := negb (recreate self);
       "--build" := build self;
       "--no-build" := false;
       "--no-deps" := false ]} in
  let up_options :=
    if force_recreate self then <["--no-recreate" := false]> up_options
    else up_options in
  let up_options := <["--force-recreate" := force_recreate self]> up_options in
  if remove_orphans self then <["--remove-orphans" := true]> up_options
  else up_options.

(** The body of the first loop of [cmd_up], for one service. *)
Definition up_step (snap : Snapshot) (result : bool * Diff)
    (service : Service) : bool * Diff :=
  if considered (service_names self) service then
    let plan :=
      convergence_plan snap service
        (convergence_strategy_from_opts up_options) in
    let changed :=
      if bool_decide (action plan ≠ Noop) then true else result.1 in
    let diff' :=
      if diff self then
        <[service_name service :=
            {[ action_name (action plan) :=
                 DiffContainers (container_ref <$> plan_containers plan) ]}]>
          result.2
      else result.2 in
    (changed, diff')
  else result.

Definition up_pass (snap : Snapshot) : bool * Diff :=
  fold_left (up_step snap) (services (project self)) (false, ∅).

(** The loop of [cmd_stop] and [cmd_restart]: [key] is ['stop'] or
    ['restart'], [stopped] the argument given to [service.containers]. *)
Definition target_step (key : string) (with_stopped : bool)
    (names : list string) (snap : Snapshot) (result : bool * Diff)
    (service : Service) : bool * Diff :=
  if considered names service then
    let targets := containers snap service with_stopped in
    let changed := if targets is [] then result.1 else true in
    let listed := if diff self then container_ref <$> targets else [] in
    (changed,
     <[service_name service := {[ key := DiffContainers listed ]}]> result.2)
  else result.

Definition targets_pass (key : string) (with_stopped : bool)
    (names : list string) (snap : Snapshot) : bool * Diff :=
  fold_left (target_step key with_stopped names snap)
            (services (project self)) (false, ∅).

Definition cmd_stop (names : list string) : M Result :=
  snap ← get_snapshot;
  let result := targets_pass "stop" false names snap in
  (if negb (check_mode self) && result.1 then
     try_except rt (ProjectStop names) (fun exc =>
       fail ("Error stopping services for " +:+ project_name (project self)
             +:+ " - " +:+ exc))
   else mret ());;
  mret (result_dict result.1 result.2).

Definition cmd_restart (names : list string) : M Result :=
  snap ← get_snapshot;
  let result := targets_pass "restart" true names snap in
  (if negb (check_mode self) && result.1 then
     try_except rt (ProjectRestart names) (fun exc =>
       fail ("Error restarting services for " +:+ project_name (project self)
             +:+ " - " +:+ exc))
   else mret ());;
  mret (result_dict result.1 result.2).

(** The body of the loop of [cmd_scale], for one service. *)
Definition scale_step (result : bool * Diff) (service : Service)
  : M (bool * Diff) :=
  match scale self !! service_name service with
  | None => mret result
  | Some count =>
    snap ← get_snapshot;
    let existing := containers snap service true in
    let diff' := <[service_name service := ∅]> result.2 in
    if bool_decide (Z.of_nat (length existing) ≠ count) then
      let diff'' :=
        if diff self then
          <[service_name service :=
              {[ "scale" := DiffDelta (count - Z.of_nat (length existing)) ]}]>
            diff'
        else diff' in
      (if negb (check_mode self) then
         try_except rt (ServiceScale (service_name service) count) (fun exc =>
           fail ("Error scaling " +:+ service_name service
                 +:+ " - " +:+ exc))
       else mret ());;
      mret (true, diff'')
    else mret (result.1, diff')
  end.

Definition cmd_scale : M Result :=
  result ← foldM scale_step (services (project self)) (false, ∅);
  mret (result_dict result.1 result.2).

Definition down_step (snap : Snapshot) (result : bool * Diff)
    (service : Service) : bool * Diff :=
  let existing := containers snap service true in
  let changed := if existing is [] then result.1 else true in
  let diff' :=
    if diff self then
      <[service_name service :=
          {[ "deleted" := DiffNames (container_name <$> existing) ]}]> result.2
    else result.2 in
  (changed, diff').

Definition down_pass (snap : Snapshot) : bool * Diff :=
  fold_left (down_step snap) (services (project self)) (false, ∅).

Definition cmd_down : M Result :=
  snap ← get_snapshot;
  let result := down_pass snap in
  (if negb (check_mode self) && result.1 then
     try_except rt
       (ProjectDown (remove_images self) (remove_volumes self)
                    (remove_orphans self))
       (fun exc =>
          fail ("Error bringing " +:+ project_name (project self)
                +:+ " down - " +:+ exc))
   else mret ());;
  mret (result_dict result.1 result.2).

(** The facts kept from one container's inspection data. *)
Definition container_facts (c : Container) : Facts :=
  let inspection := inspect c in
  {| fact_cmd := Cmd inspection;
     fact_labels := Labels inspection;
     fact_image := Image inspection;
     state_running := Running inspection;
     state_status := Status inspection;
     networks :=
       (fun n =>
          {| aliases := Aliases n;
             globalIPv6 := GlobalIPv6Address n;
             globalIPv6PrefixLen := GlobalIPv6PrefixLen n;
             fact_IPAddress := IPAddress n;
             fact_IPPrefixLen := IPPrefixLen n;
             links := Links n;
             macAddress := MacAddress n |}) <$> Networks inspection |}.

(** The last loop of [cmd_up]. *)
Definition collect_facts (snap : Snapshot) : AnsibleFacts :=
  fold_left
    (fun facts service =>
       <[service_name service :=
           fold_left (fun m c => <[container_name c := container_facts c]> m)
                     (containers snap service true) ∅]> facts)
    (services (project self)) ∅.

Definition cmd_up : M Result :=
  let start_deps := dependencies self in
  let names := service_names self in
  let detached := true in
  snap ← get_snapshot;
  let pass := up_pass snap in
  let result : Result :=
    <["ansible_facts" := VFacts ∅]> (result_dict pass.1 pass.2) in
  (if negb (check_mode self) && pass.1 then
     try_except rt
       (ProjectUp names start_deps up_options detached (remove_orphans self))
       (fun exc =>
          fail ("Error bring " +:+ project_name (project self)
                +:+ " up - " +:+ exc))
   else mret ());;
  result ← (if stopped self then
              other ← cmd_stop names; mret (update result other)
            else mret result);
  result ← (if restarted self then
              other ← cmd_restart names; mret (update result other)
            else mret result);
  result ← (if bool_decide (scale self ≠ ∅) then
              other ← cmd_scale; mret (update result other)
            else mret result);
  snap' ← get_snapshot;
  mret (<["ansible_facts" := VFacts (collect_facts snap')]> result).

Definition exec_module : M Result :=
  match state self with
  | present => cmd_up
  | absent => cmd_down
  end.

End Commands.

(** ** Observing a run *)

Definition world_of {A : Type} (o : Outcome A) : World :=
  match o with
  | Ok _ w => w
  | Failed _ w => w
  end.

Definition value_of {A : Type} (o : Outcome A) : option A :=
  match o with
  | Ok a _ => Some a
  | Failed _ _ => None
  end.

Definition raises (r : CallResult) : bool :=
  match r with
  | Done _ => false
  | Raised _ _ => true
  end.

Definition nonempty {A : Type} (l : list A) : bool :=
  if l is [] then false else true.

(** ** What the loops compute for one service *)

(** A service [cmd_stop] or [cmd_restart] acts on: one of the requested
    services with a container to stop or restart. *)
Definition targeted (names : list string) (snap : Snapshot)
    (with_stopped : bool) (service : Service) : bool :=
  considered names service
  && nonempty (containers snap service with_stopped).

(** The diff entry [cmd_stop] or [cmd_restart] writes for a service. *)
Definition target_entry (self : ContainerManager) (key : string)
    (with_stopped : bool) (snap : Snapshot) (service : Service)
  : gmap string DiffEntry :=
  {[ key := DiffContainers
              (if diff self
               then container_ref <$> containers snap service with_stopped
               else []) ]}.

(** The plan [cmd_up] asks for a service. *)
Definition planned (self : ContainerManager) (snap : Snapshot)
    (service : Service) : ConvergencePlan :=
  convergence_plan snap service
    (convergence_strategy_from_opts (up_options self)).

(** The diff entry [cmd_down] writes for a service. *)
Definition deleted_entry (snap : Snapshot) (service : Service)
  : gmap string DiffEntry :=
  {[ "deleted" := DiffNames (container_name <$> containers snap service true) ]}.

(** A service [cmd_scale] has to scale: it is named in the scale map with a
    count other than the number of its containers. *)
Definition to_scale (self : ContainerManager) (snap : Snapshot)
    (service : Service) : bool :=
  match scale self !! service_name service with
  | None => false
  | Some count =>
    bool_decide (Z.of_nat (length (containers snap service true)) ≠ count)
  end.

(** The diff entry [cmd_scale] writes for a service named in the scale
    map. *)
Definition scale_entry (self : ContainerManager) (snap : Snapshot)
    (service : Service) : gmap string DiffEntry :=
  match scale self !! service_name service with
  | None => ∅
  | Some count =>
    let existing := containers snap service true in
    if diff self && bool_decide (Z.of_nat (length existing) ≠ count)
    then {[ "scale" := DiffDelta (count - Z.of_nat (length existing)) ]}
    else ∅
  end.

(** ** The results on a snapshot that does not move

    What the commands return when the containers stay as they are during
    the run, as in check mode. *)

Definition pass_result (pass : bool * Diff) : Result :=
  result_dict pass.1 pass.2.

Definition scale_pass_step (self : ContainerManager) (snap : Snapshot)
    (result : bool * Diff) (service : Service) : bool * Diff :=
  if bool_decide (is_Some (scale self !! service_name service)) then
    (result.1 || to_scale self snap service,
     <[service_name service := scale_entry self snap service]> result.2)
  else result.

Definition scale_pass (self : ContainerManager) (snap : Snapshot)
  : bool * Diff :=
  fold_left (scale_pass_step self snap) (services (project self)) (false, ∅).

Definition up_result (self : ContainerManager) (snap : Snapshot) : Result :=
  let names := service_names self in
  let result : Result :=
    <["ansible_facts" := VFacts ∅]> (pass_result (up_pass self snap)) in
  let result :=
    if stopped self
    then update result (pass_result (targets_pass self "stop" false names snap))
    else result in
  let result :=
    if restarted self
    then update result
           (pass_result (targets_pass self "restart" true names snap))
    else result in
  let result :=
    if bool_decide (scale self ≠ ∅)
    then update result (pass_result (scale_pass self snap))
    else result in
  <["ansible_facts" := VFacts (collect_facts self snap)]> result.

Definition module_result (self : ContainerManager) (snap : Snapshot)
  : Result :=
  match state self with
  | present => up_result self snap
  | absent => pass_result (down_pass self snap)
  end.

(** ** Variations of the parameters and runtimes *)

Definition with_check_mode (b : bool) (self : ContainerManager)
  : ContainerManager :=
  {| project := project self; state := state self; check_mode := b;
     diff := diff self; service_names := service_names self;
     dependencies := dependencies self; recreate := recreate self;
     build := build self; force_recreate := force_recreate self;
     remove_images := remove_images self;
     remove_volumes := remove_volumes self;
     remove_orphans := remove_orphans self; stopped := stopped self;
     restarted := restarted self; scale := scale self |}.

Definition with_scale (targets : gmap string Z) (self : ContainerManager)
  : ContainerManager :=
  {| project := project self; state := state self;
     check_mode := check_mode self; diff := diff self;
     service_names := service_names self; dependencies := dependencies self;
     recreate := recreate self; build := build self;
     force_recreate := force_recreate self;
     remove_images := remove_images self;
     remove_volumes := remove_volumes self;
     remove_orphans := remove_orphans self; stopped := stopped self;
     restarted := restarted self; scale := targets |}.

Definition with_state (st : State) (self : ContainerManager)
  : ContainerManager :=
  {| project := project self; state := st; check_mode := check_mode self;
     diff := diff self; service_names := service_names self;
     dependencies := dependencies self; recreate := recreate self;
     build := build self; force_recreate := force_recreate self;
     remove_images := remove_images self;
     remove_volumes := remove_volumes self;
     remove_orphans := remove_orphans self; stopped := stopped self;
     restarted := restarted self; scale := scale self |}.

Definition with_diff (b : bool) (self : ContainerManager)
  : ContainerManager :=
  {| project := project self; state := state self;
     check_mode := check_mode self; diff := b;
     service_names := service_names self; dependencies := dependencies self;
     recreate := recreate self; build := build self;
     force_recreate := force_recreate self;
     remove_images := remove_images self;
     remove_volumes := remove_volumes self;
     remove_orphans := remove_orphans self; stopped := stopped self;
     restarted := restarted self; scale := scale self |}.

Definition with_stopped (b : bool) (self : ContainerManager)
  : ContainerManager :=
  {| project := project self; state := state self;
     check_mode := check_mode self; diff := diff self;
     service_names := service_names self; dependencies := dependencies self;
     recreate := recreate self; build := build self;
     force_recreate := force_recreate self;
     remove_images := remove_images self;
     remove_volumes := remove_volumes self;
     remove_orphans := remove_orphans self; stopped := b;
     restarted := restarted self; scale := scale self |}.

Definition with_restarted (b : bool) (self : ContainerManager)
  : ContainerManager :=
  {| project := project self; state := state self;
     check_mode := check_mode self; diff := diff self;
     service_names := service_names self; dependencies := dependencies self;
     recreate := recreate self; build := build self;
     force_recreate := force_recreate self;
     remove_images := remove_images self;
     remove_volumes := remove_volumes self;
     remove_orphans := remove_orphans self; stopped := stopped self;
     restarted := b; scale := scale self |}.

Definition with_force_recreate (b : bool) (self : ContainerManager)
  : ContainerManager :=
  {| project := project self; state := state self;
     check_mode := check_mode self; diff := diff self;
     service_names := service_names self; dependencies := dependencies self;
     recreate := recreate self; build := build self; force_recreate := b;
     remove_images := remove_images self;
     remove_volumes := remove_volumes self;
     remove_orphans := remove_orphans self; stopped := stopped self;
     restarted := restarted self; scale := scale self |}.

(** A runtime on which every call returns without touching a container. *)
Definition idle : Runtime := fun _ snap => Done snap.

(** A runtime leaves the snapshot alone when no call changes it. *)
Definition inert (rt : Runtime) : Prop :=
  ∀ c snap, rt c snap = Done snap.

(** A runtime scales locally when [service.scale] changes the containers of
    that service only. *)
Definition scales_locally (rt : Runtime) : Prop :=
  ∀ name count snap other, other ≠ name →
    match rt (ServiceScale name count) snap with
    | Done snap' => snap' !! other = snap !! other
    | Raised _ snap' => snap' !! other = snap !! other
    end.

(** ** Failures *)

(** The message the handler around each call hands to [self.fail]. *)
Definition error_message (self : ContainerManager) (c : Call) (exc : string)
  : string :=
  match c with
  | ProjectUp _ _ _ _ _ =>
    "Error bring " +:+ project_name (project self) +:+ " up - " +:+ exc
  | ProjectDown _ _ _ =>
    "Error bringing " +:+ project_name (project self) +:+ " down - " +:+ exc
  | ProjectStop _ =>
    "Error stopping services for " +:+ project_name (project self)
    +:+ " - " +:+ exc
  | ProjectRestart _ =>
    "Error restarting services for " +:+ project_name (project self)
    +:+ " - " +:+ exc
  | ServiceScale name _ => "Error scaling " +:+ name +:+ " - " +:+ exc
  end.

(** [completes rt snap calls snap']: issued in turn from [snap], the calls
    all return and leave the containers as [snap']. *)
Inductive completes (rt : Runtime) : Snapshot → list Call → Snapshot → Prop :=
| completes_nil snap : completes rt snap [] snap
| completes_cons snap c snap' calls snap'' :
    rt c snap = Done snap' →
    completes rt snap' calls snap'' →
    completes rt snap (c :: calls) snap''.

(** [occurs s msg]: the text [s] is part of [msg]. *)
Fixpoint occurs (s msg : string) : bool :=
  String.prefix s msg ||
  match msg with
  | EmptyString => false
  | String _ msg' => occurs s msg'
  end.

(** ** A sample project *)

Definition sample_container (name hash : string) (running : bool)
  : Container :=
  {| container_id := name +:+ "-id";
     container_name := name;
     short_id := name;
     config_hash := hash;
     inspect := {| Cmd := []; Labels := ∅; Image := "image";
                   Running := running;
                   Status := if running then "running" else "exited";
                   Networks := ∅ |} |}.

Definition db : Service := {| service_name := "db"; service_hash := "h-db" |}.
Definition web : Service := {| service_name := "web"; service_hash := "h-web" |}.

Definition demo : Project :=
  {| project_name := "demo"; services := [db; web] |}.

(** The module's defaults, with [--diff] on. *)
Definition defaults : ContainerManager :=
  {| project := demo; state := present; check_mode := false; diff := true;
     service_names := []; dependencies := true; recreate := true;
     build := true; force_recreate := false; remove_images := None;
     remove_volumes := false; remove_orphans := false; stopped := false;
     restarted := false; scale := ∅ |}.

Definition db_1 : Container := sample_container "demo_db_1" "h-db" true.
Definition web_1 : Container := sample_container "demo_web_1" "h-web" true.

(** Both services up to date and running. *)
Definition converged_snapshot : Snapshot :=
  {[ "db" := [db_1]; "web" := [web_1] ]}.

Definition fresh (snap : Snapshot) : World :=
  {| snapshot := snap; trace := [] |}.

(** ** Runs that follow the calls

    [traced rt self m]: whatever [m] returns, the calls it has added to the
    trace all returned, one after the other; when it fails, it does so on
    the last call it issued, which raised, with the message of that call's
    handler, and it was not in check mode. *)
Definition traced (rt : Runtime) (self : ContainerManager) {A : Type}
    (m : M A) : Prop :=
  ∀ w,
    match m w with
    | Ok _ w' =>
      ∃ calls, trace w' = (trace w ++ calls)
               ∧ completes rt (snapshot w) calls (snapshot w')
    | Failed msg w' =>
      check_mode self = false
      ∧ ∃ calls c exc snap,
          trace w' = (trace w ++ calls ++ [c])
          ∧ completes rt (snapshot w) calls snap
          ∧ rt c snap = Raised exc (snapshot w')
          ∧ msg = error_message self c exc
    end.

(** [quiet rt self m v]: [m] returns [v] of the snapshot it starts from and
    leaves the containers as they are; in check mode it leaves the trace as
    it is too. *)
Definition quiet (rt : Runtime) (self : ContainerManager) {A : Type}
    (m : M A) (v : Snapshot → A) : Prop :=
  ∀ w, ∃ w', m w = Ok (v (snapshot w)) w'
             ∧ snapshot w' = snapshot w
             ∧ (check_mode self = true → w' = w).

Definition db_1_exited : Container :=
  sample_container "demo_db_1" "h-db" false.
Definition web_1_exited : Container :=
  sample_container "demo_web_1" "h-web" false.

(** Both services up to date, their containers exited. *)
Definition exited_snapshot : Snapshot :=
  {[ "db" := [db_1_exited]; "web" := [web_1_exited] ]}.

(** A runtime on which every call raises. *)
Definition broken : Runtime :=
  fun (_ : Call) (snap : Snapshot) => Raised "boom" snap.

Definition started (c : Container) : Container :=
  {| container_id := container_id c;
     container_name := container_name c;
     short_id := short_id c;
     config_hash := config_hash c;
     inspect := {| Cmd := Cmd (inspect c); Labels := Labels (inspect c);
                   Image := Image (inspect c); Running := true;
                   Status := "running";
                   Networks := Networks (inspect c) |} |}.

(** A runtime whose [project.up] starts every container; its other calls
    return without a change. *)
Definition starting : Runtime := fun (c : Call) (snap : Snapshot) =>
  match c with
  | ProjectUp _ _ _ _ _ =>
    Done ((fun existing : list Container => started <$> existing) <$> snap)
  | _ => Done snap
  end.

(** The sample parameters of the examples. *)
Definition forced : ContainerManager := with_force_recreate true defaults.
Definition checking : ContainerManager := with_check_mode true defaults.
Definition stopping : ContainerManager := with_stopped true defaults.
Definition restarting : ContainerManager := with_restarted true defaults.
Definition restarting_quietly : ContainerManager :=
  with_diff false restarting.
Definition restarting_scaled : ContainerManager :=
  with_scale {[ "web" := 1 ]} restarting.
Definition tearing_down : ContainerManager := with_state absent defaults.
Definition tearing_down_quietly : ContainerManager :=
  with_diff false tearing_down.
Definition scaling_up : ContainerManager :=
  with_scale {[ "web" := 2 ]} defaults.
Definition scaling_up_quietly : ContainerManager :=
  with_diff false scaling_up.
Definition scaling_same : ContainerManager :=
  with_scale {[ "web" := 1 ]} defaults.
Definition scaling_ghost : ContainerManager :=
  with_scale {[ "ghost" := 3 ]} defaults.


(** ** What a run ensures and emits *)

(** [ensures m Q]: whenever [m] returns, [Q] holds of its value and of the
    world it leaves. *)
Definition ensures {A : Type} (m : M A) (Q : A → World → Prop) : Prop :=
  ∀ w a w', m w = Ok a w' → Q a w'.

(** [emits m S]: whether it returns or fails, the calls [m] adds to the
    trace satisfy [S]. *)
Definition emits {A : Type} (m : M A) (S : list Call → Prop) : Prop :=
  ∀ w, ∃ calls, trace (world_of (m w)) = trace w ++ calls ∧ S calls.

(** The pass whose [changed] and [diff] end up in the result of [cmd_up]:
    that of the last modifier that is set, or the convergence pass. *)
Definition last_pass (self : ContainerManager) (snap : Snapshot)
  : bool * Diff :=
  if bool_decide (scale self ≠ ∅) then scale_pass self snap
  else if restarted self then
    targets_pass self "restart" true (service_names self) snap
  else if stopped self then
    targets_pass self "stop" false (service_names self) snap
  else up_pass self snap.

(** The call [cmd_scale] issues for a service. *)
Definition scale_call (self : ContainerManager) (service : Service) : Call :=
  ServiceScale (service_name service)
               (default 0 (scale self !! service_name service)).

(** A runtime scales exactly when a [service.scale] that returns leaves
    the service with the requested number of containers. *)
Definition scales_exactly (rt : Runtime) : Prop :=
  ∀ name count snap,
    match rt (ServiceScale name count) snap with
    | Done snap' => Z.of_nat (length (default [] (snap' !! name))) = count
    | Raised _ _ => True
    end.

(** A runtime that scales as asked and raises on a negative count; its
    other calls return without a change. *)
Definition scaling : Runtime := fun (c : Call) (snap : Snapshot) =>
  match c with
  | ServiceScale name count =>
    if bool_decide (0 ≤ count) then
      Done (<[name := replicate (Z.to_nat count)
                        (sample_container name "h" true)]> snap)
    else Raised "negative count" snap
  | _ => Done snap
  end.

Definition with_service_names (names : list string) (self : ContainerManager)
  : ContainerManager :=
  {| project := project self; state := state self;
     check_mode := check_mode self; diff := diff self;
     service_names := names; dependencies := dependencies self;
     recreate := recreate self; build := build self;
     force_recreate := force_recreate self;
     remove_images := remove_images self;
     remove_volumes := remove_volumes self;
     remove_orphans := remove_orphans self; stopped := stopped self;
     restarted := restarted self; scale := scale self |}.

(** Stop then restart, for a service the project does not have. *)
Definition filtering_ghost : ContainerManager :=
  with_service_names ["ghost"] (with_restarted true stopping).

(** The converged project once web has been scaled to two containers. *)
Definition scaled_world : World :=
  issued (ServiceScale "web" 2)
         (<["web" := replicate 2 (sample_container "web" "h" true)]>
            converged_snapshot)
         (fresh converged_snapshot).

(** ** Building the manager: parameters, options and the project *)

(** The values of the module's parameters and of the options handed to
    compose. *)
Inductive PyVal :=
| PNone
| PBool (b : bool)
| PInt (z : Z)
| PStr (s : string)
| PList (l : list string)
| PDict (d : gmap string PyVal).

(** Python's truth value. *)
Definition truthy (v : PyVal) : bool :=
  match v with
  | PNone => false
  | PBool b => b
  | PInt z => bool_decide (z ≠ 0)
  | PStr s => bool_decide (s ≠ "")
  | PList l => bool_decide (l ≠ [])
  | PDict d => bool_decide (d ≠ ∅)
  end.

Definition AUTH_PARAM_MAPPING : gmap string string :=
  {[ "docker_host" := "--host";
     "tls" := "--tls";
     "cacert_path" := "--tlscacert";
     "cert_path" := "--tlscert";
     "key_path" := "--tlskey";
     "tls_verify" := "--tlsverify" ]}.

(** The entries are written under distinct options, so the order in which
    the dictionary is walked does not show in the result. *)
Definition _get_auth_options (auth_params : gmap string PyVal)
  : gmap string PyVal :=
  map_fold
    (fun key value options =>
       match value with
       | PNone => options
       | _ =>
         match AUTH_PARAM_MAPPING !! key with
         | Some option =>
           if bool_decide (option ≠ "") then <[option := value]> options
           else options
         | None => options
         end
       end)
    ∅ auth_params.

(** [self.<name>] once [__init__] has copied the parameters onto the
    manager: the attributes it reads start as [None] and every parameter
    is set under its own name. *)
Definition attr (params : gmap string PyVal) (name : string) : PyVal :=
  default PNone (params !! name).

(** The names of the parameters, from the argument spec of [main]. *)
Definition argument_spec : list string :=
  [ "project_src"; "project_name"; "files"; "state"; "definition";
    "hostname_check"; "recreate"; "build"; "force_recreate";
    "remove_images"; "remove_volumes"; "remove_orphans"; "stopped";
    "restarted"; "scale"; "services"; "dependencies" ].

(** [self.options] as [__init__] builds it. *)
Definition build_options (auth_params params : gmap string PyVal)
  : gmap string PyVal :=
  let options : gmap string PyVal := _get_auth_options auth_params ∪ ∅ in
  let options :=
    <["--skip-hostname-check" :=
        PBool (negb (truthy (attr params "hostname_check")))]> options in
  let options :=
    if truthy (attr params "project_name")
    then <["--project-name" := attr params "project_name"]> options
    else options in
  if truthy (attr params "project_files")
  then <["--file" := attr params "project_files"]> options
  else options.

(** What [__init__] and [exec_module] take from outside this file: whether
    compose could be imported; [tempfile.mkdtemp], which raises or makes a
    directory; [os.path.join]; the exception, if any, of each step of
    writing the definition, in the order of the [try] block: dumping it
    for the log, opening the compose file for writing, and writing the
    dump and closing the file; the exception, if any, of [os.remove] and of
    [os.rmdir]; and compose's [project_from_options], which raises or
    returns the project. *)
Record Env := {
  HAS_COMPOSE : bool;
  HAS_COMPOSE_EXC : string;
  mkdtemp : string + string;
  path_join : string → string → string;
  dump_raises : PyVal → option string;
  open_raises : string → option string;
  write_raises : string → PyVal → option string;
  remove_raises : string → option string;
  rmdir_raises : string → option string;
  project_from_options : PyVal → gmap string PyVal → string + Project;
}.

(** What is done to the file system, oldest first.  [WriteFile path]: the
    file has been opened for writing, so it exists from then on, whether or
    not the write that follows raises. *)
Inductive FileOp :=
| MkDTemp (dir : string)
| WriteFile (path : string)
| Remove (path : string)
| Rmdir (dir : string).

(** [__init__] fails with a message, lets the exception of
    [tempfile.mkdtemp] escape, or leaves a manager with its [project_src],
    [options] and [project]. *)
Inductive InitOutcome :=
| InitFailed (msg : string) (ops : list FileOp)
| InitRaised (exc : string)
| Ready (project_src : PyVal) (options : gmap string PyVal)
        (loaded : Project) (ops : list FileOp).

Definition load_project (env : Env) (project_src : PyVal)
    (options : gmap string PyVal) (ops : list FileOp) : InitOutcome :=
  match project_from_options env project_src options with
  | inl exc => InitFailed ("Configuration error - " +:+ exc) ops
  | inr loaded => Ready project_src options loaded ops
  end.

(** The [try] block that writes the definition: what it has done to the
    file system, and the exception it has caught, if any. *)
Definition write_definition (env : Env) (compose_file : string)
    (definition : PyVal) : list FileOp * option string :=
  match dump_raises env definition with
  | Some exc => ([], Some exc)
  | None =>
    match open_raises env compose_file with
    | Some exc => ([], Some exc)
    | None =>
      ([WriteFile compose_file], write_raises env compose_file definition)
    end
  end.

Definition init (env : Env) (auth_params params : gmap string PyVal)
  : InitOutcome :=
  let options := build_options auth_params params in
  if negb (HAS_COMPOSE env) then
    InitFailed
      ("Unable to load docker-compose. Try `pip install docker-compose`. Error: "
       +:+ HAS_COMPOSE_EXC env) []
  else if truthy (attr params "definition") then
    if negb (truthy (attr params "project_name")) then
      InitFailed
        "Parameter error - project_name required when providing definition."
        []
    else
      match mkdtemp env with
      | inl exc => InitRaised exc
      | inr project_src =>
        let compose_file := path_join env project_src "docker-compose.yml" in
        let written :=
          write_definition env compose_file (attr params "definition") in
        let ops := MkDTemp project_src :: written.1 in
        match written.2 with
        | Some exc =>
          InitFailed ("Error writing to " +:+ compose_file +:+ " - " +:+ exc)
                     ops
        | None => load_project env (PStr project_src) options ops
        end
      end
  else if negb (truthy (attr params "project_src")) then
    InitFailed "Parameter error - project_src required." []
  else load_project env (attr params "project_src") options [].

(** How a whole [exec_module] ends: it returns the result, the module has
    failed with a message, or an exception of the clean-up escapes. *)
Inductive RunOutcome :=
| Returned (result : Result)
| Exited (msg : string)
| Uncaught (exc : string).

(** [exec_module] with the removal of the files of an inline definition:
    [definition] and [project_src] are the attributes of the manager. *)
Definition exec_module_files (env : Env) (rt : Runtime)
    (self : ContainerManager) (definition : PyVal) (project_src : string)
    (w : World) : RunOutcome * World * list FileOp :=
  match exec_module rt self w with
  | Failed msg w' => (Exited msg, w', [])
  | Ok result w' =>
    if truthy definition then
      let compose_file := path_join env project_src "docker-compose.yml" in
      match remove_raises env compose_file with
      | Some exc => (Uncaught exc, w', [Remove compose_file])
      | None =>
        match rmdir_raises env project_src with
        | Some exc =>
          (Uncaught exc, w', [Remove compose_file; Rmdir project_src])
        | None =>
          (Returned result, w', [Remove compose_file; Rmdir project_src])
        end
      end
    else (Returned result, w', [])
  end.

(** A sample environment in which nothing raises, and sample parameters. *)
Definition sample_env : Env :=
  {| HAS_COMPOSE := true;
     HAS_COMPOSE_EXC := "";
     mkdtemp := inr "/tmp/ansible1";
     path_join := fun a b => a +:+ "/" +:+ b;
     dump_raises := fun _ => None;
     open_raises := fun _ => None;
     write_raises := fun _ _ => None;
     remove_raises := fun _ => None;
     rmdir_raises := fun _ => None;
     project_from_options := fun _ _ => inr demo |}.

Definition sample_auth : gmap string PyVal :=
  {[ "docker_host" := PStr "tcp://10.0.0.1:2376";
     "tls" := PBool true;
     "cert_path" := PNone;
     "api_version" := PStr "1.24" ]}.

Definition inline_params : gmap string PyVal :=
  {[ "project_name" := PStr "demo";
     "definition" := PDict {[ "web" := PDict {[ "image" := PStr "nginx" ]} ]};
     "files" := PList ["prod.yml"];
     "hostname_check" := PBool false;
     "state" := PStr "present" ]}.


(** ** The commands on the sample project *)

(** Nothing exists yet: both services are to be created and [project.up] is
    called. *)
Example up_creates_missing_services :
  changed_of <$> value_of (exec_module idle defaults (fresh ∅))
  = Some (Some true)
  ∧ diff_of <$> value_of (exec_module idle defaults (fresh ∅))
    = Some (Some {[ "db" := {[ "create" := DiffContainers [] ]};
                    "web" := {[ "create" := DiffContainers [] ]} ]})
  ∧ trace (world_of (exec_module idle defaults (fresh ∅)))
    = [ProjectUp [] true (up_options defaults) true false].
Proof. by vm_compute. Qed.

(** Everything is up to date and running: nothing changes and nothing is
    called, even on a runtime where any call would raise. *)
Example up_leaves_converged_project :
  changed_of <$> value_of (exec_module broken defaults
                             (fresh converged_snapshot))
  = Some (Some false)
  ∧ diff_of <$> value_of (exec_module broken defaults
                            (fresh converged_snapshot))
    = Some (Some {[ "db" := {[ "noop" := DiffContainers [] ]};
                    "web" := {[ "noop" := DiffContainers [] ]} ]})
  ∧ trace (world_of (exec_module broken defaults (fresh converged_snapshot)))
    = [].
Proof. by vm_compute. Qed.

(** Stopping a running project lists its two containers. *)
Example stop_lists_running_containers :
  value_of (cmd_stop idle defaults [] (fresh converged_snapshot))
  = Some (result_dict true
            {[ "db" := {[ "stop" := DiffContainers [container_ref db_1] ]};
               "web" := {[ "stop" := DiffContainers [container_ref web_1] ]} ]})
  ∧ trace (world_of (cmd_stop idle defaults [] (fresh converged_snapshot)))
    = [ProjectStop []].
Proof. by vm_compute. Qed.

(** Scaling web from one container to two records a difference of one. *)
Example scale_adds_one_container :
  value_of (cmd_scale idle scaling_up (fresh converged_snapshot))
  = Some (result_dict true {[ "web" := {[ "scale" := DiffDelta 1 ]} ]})
  ∧ trace (world_of (cmd_scale idle scaling_up (fresh converged_snapshot)))
    = [ServiceScale "web" 2].
Proof. by vm_compute. Qed.

(** A teardown with diff output lists both containers as deleted. *)
Example teardown_lists_deleted_containers :
  value_of (exec_module idle tearing_down (fresh converged_snapshot))
  = Some (result_dict true
            {[ "db" := {[ "deleted" := DiffNames ["demo_db_1"] ]};
               "web" := {[ "deleted" := DiffNames ["demo_web_1"] ]} ]})
  ∧ trace (world_of (exec_module idle tearing_down (fresh converged_snapshot)))
    = [ProjectDown None false false].
Proof. by vm_compute. Qed.

(** ** Lemmas on the loops *)

Lemma nonempty_true {A : Type} (l : list A) :
  nonempty l = true ↔ ∃ x, x ∈ l.
Proof.
  destruct l as [|x l]; simpl; split.
  - discriminate.
  - intros [x Hx]. by apply not_elem_of_nil in Hx.
  - intros _. exists x. apply list_elem_of_here.
  - done.
Qed.

Section Passes.

Context {A : Type}.
Variable step : bool * Diff → A → bool * Diff.

(** A loop whose body sets [changed] when [P] holds of the element. *)
Lemma fold_left_changed (P : A → bool) :
  (∀ acc x, (step acc x).1 = acc.1 || P x) →
  ∀ l acc, (fold_left step l acc).1 = acc.1 || existsb P l.
Proof.
  intros Hstep l. induction l as [|x l IH]; intros acc; simpl.
  - by rewrite orb_false_r.
  - rewrite IH, Hstep. by rewrite orb_assoc.
Qed.

Variable key : A → string.
Variable writes : A → bool.
Variable entry : A → gmap string DiffEntry.

Hypothesis step_diff : ∀ acc x,
  (step acc x).2 = if writes x then <[key x := entry x]> acc.2 else acc.2.

(** Whatever the loop leaves under a name was there before or was written
    for an element of that name. *)
Lemma fold_left_written l acc k m :
  (fold_left step l acc).2 !! k = Some m →
  acc.2 !! k = Some m ∨ ∃ x, x ∈ l ∧ writes x = true ∧ key x = k ∧ m = entry x.
Proof.
  revert acc. induction l as [|x l IH]; intros acc; simpl.
  - by left.
  - intros H. destruct (IH _ H) as [Hacc | (y & Hy & Hw & Hk & Hm)].
    + rewrite step_diff in Hacc. destruct (writes x) eqn:Hw.
      * destruct (decide (key x = k)) as [Heq | Hne].
        -- subst k. rewrite lookup_insert_eq in Hacc. right. exists x.
           split; [apply list_elem_of_here|]. by simplify_eq.
        -- rewrite lookup_insert_ne in Hacc by done. by left.
      * by left.
    + right. exists y. split; [by apply list_elem_of_further|done].
Qed.

Hypothesis by_key : ∀ x y, key x = key y → writes x = writes y ∧ entry x = entry y.

(** Elements of one name write the same entry, so the entry of every
    written element is found at the end of the loop. *)
Lemma fold_left_entry l acc x :
  x ∈ l → writes x = true →
  (fold_left step l acc).2 !! key x = Some (entry x).
Proof.
  intros Hx Hw. induction l as [|y l IH] using rev_ind.
  - by apply not_elem_of_nil in Hx.
  - rewrite fold_left_app. simpl. rewrite step_diff.
    destruct (decide (key y = key x)) as [Heq | Hne].
    + destruct (by_key _ _ Heq) as [Hwy Hey].
      rewrite Hwy, Hw, Heq, Hey. apply lookup_insert_eq.
    + assert (x ∈ l) as Hl.
      { apply elem_of_app in Hx as [Hx | Hx]; [done|].
        apply list_elem_of_singleton in Hx. by subst. }
      destruct (writes y); [rewrite lookup_insert_ne by done|]; by apply IH.
Qed.

End Passes.

(** ** The stop and restart loops *)

Section Targets.

Variable self : ContainerManager.
Variables (key : string) (with_stopped : bool) (names : list string).
Variable snap : Snapshot.

Local Abbreviation is_target := (targeted names snap with_stopped).
Local Abbreviation entry_of := (target_entry self key with_stopped snap).

Lemma target_step_changed acc service :
  (target_step self key with_stopped names snap acc service).1
  = acc.1 || is_target service.
Proof.
  unfold target_step, targeted.
  destruct (considered names service); simpl.
  - destruct (containers snap service with_stopped); simpl;
      [by rewrite orb_false_r | by rewrite orb_true_r].
  - by rewrite orb_false_r.
Qed.

Lemma target_step_diff acc service :
  (target_step self key with_stopped names snap acc service).2
  = if considered names service
    then <[service_name service := entry_of service]> acc.2
    else acc.2.
Proof. unfold target_step. by destruct (considered names service). Qed.

Lemma target_by_name (x y : Service) :
  service_name x = service_name y →
  considered names x = considered names y ∧ entry_of x = entry_of y.
Proof.
  intros Heq. unfold considered, target_entry, containers. by rewrite Heq.
Qed.

Lemma targets_pass_changed :
  (targets_pass self key with_stopped names snap).1 = true ↔
  ∃ service c, service ∈ services (project self)
               ∧ considered names service = true
               ∧ c ∈ containers snap service with_stopped.
Proof.
  unfold targets_pass.
  rewrite (fold_left_changed _ is_target target_step_changed). simpl.
  rewrite existsb_exists. split.
  - intros (service & Hin & Ht). apply andb_true_iff in Ht as [Hc Hn].
    apply nonempty_true in Hn as [c Hc']. exists service, c.
    by rewrite <- list_elem_of_In in Hin.
  - intros (service & c & Hin & Hc & Hc'). exists service.
    rewrite <- list_elem_of_In. split; [done|].
    apply andb_true_iff. split; [done|]. apply nonempty_true. by exists c.
Qed.

Lemma targets_pass_entry service :
  service ∈ services (project self) → considered names service = true →
  (targets_pass self key with_stopped names snap).2 !! service_name service
  = Some (entry_of service).
Proof.
  intros Hin Hc. unfold targets_pass.
  by apply (fold_left_entry _ service_name (considered names) entry_of
              target_step_diff target_by_name).
Qed.

Lemma targets_pass_written k m :
  (targets_pass self key with_stopped names snap).2 !! k = Some m →
  ∃ service, service ∈ services (project self)
             ∧ considered names service = true
             ∧ service_name service = k ∧ m = entry_of service.
Proof.
  intros H.
  destruct (fold_left_written _ service_name (considered names) entry_of
              target_step_diff _ _ _ _ H) as [Hempty | Hx]; [|done].
  simpl in Hempty. by rewrite lookup_empty in Hempty.
Qed.

End Targets.

Lemma changed_of_result_dict changed d :
  changed_of (result_dict changed d) = Some changed.
Proof. reflexivity. Qed.

Lemma diff_of_result_dict changed d :
  diff_of (result_dict changed d) = Some d.
Proof. reflexivity. Qed.

(** What [cmd_stop] does, in one equation. *)
Lemma cmd_stop_run rt self names w :
  cmd_stop rt self names w =
  let pass := targets_pass self "stop" false names (snapshot w) in
  let c := ProjectStop names in
  if negb (check_mode self) && pass.1 then
    match rt c (snapshot w) with
    | Done snap => Ok (pass_result pass) (issued c snap w)
    | Raised exc snap => Failed (error_message self c exc) (issued c snap w)
    end
  else Ok (pass_result pass) w.
Proof.
  unfold cmd_stop, mbind, M_bind, get_snapshot, try_except, fail, mret, M_ret.
  simpl. destruct (negb (check_mode self) && _); [|done].
  by destruct (rt _ _).
Qed.

(** C4: [cmd_stop] reports a change exactly when a targeted service has a
    running container, lists only running containers in its diff, and calls
    [project.stop] exactly when it is not in check mode and it reports a
    change; it returns its result unless that call raises. *)
Theorem stop_changed_iff_running rt self names (w : World) :
  let pass := targets_pass self "stop" false names (snapshot w) in
  let out := cmd_stop rt self names w in
  (pass.1 = true ↔
   ∃ service c, service ∈ services (project self)
                ∧ considered names service = true
                ∧ c ∈ containers (snapshot w) service true
                ∧ is_running c = true)
  ∧ (∀ k m action_key e, pass.2 !! k = Some m → m !! action_key = Some e →
     ∃ l, e = DiffContainers l
          ∧ ∀ ref, ref ∈ l →
              ∃ c, c ∈ default [] (snapshot w !! k)
                   ∧ is_running c = true ∧ ref = container_ref c)
  ∧ trace (world_of out)
    = (trace w ++ (if negb (check_mode self) && pass.1
                   then [ProjectStop names] else []))
  ∧ value_of out
    = (if negb (check_mode self) && pass.1
          && raises (rt (ProjectStop names) (snapshot w))
       then None else Some (pass_result pass))
  ∧ changed_of (pass_result pass) = Some pass.1
  ∧ diff_of (pass_result pass) = Some pass.2.
Proof.
  intros pass out. repeat split.
  - intros H. apply targets_pass_changed in H as (service & c & Hin & Hc & Hc').
    apply list_elem_of_filter in Hc' as [Hrun Hc']. by exists service, c.
  - intros (service & c & Hin & Hc & Hc' & Hrun).
    apply targets_pass_changed. exists service, c.
    repeat split; [done..|]. by apply list_elem_of_filter.
  - intros k m action_key e Hk He.
    apply targets_pass_written in Hk as (service & _ & _ & <- & ->).
    unfold target_entry in He.
    apply lookup_singleton_Some in He as [_ <-]. eexists. split; [done|].
    intros ref Href. destruct (diff self).
    + apply list_elem_of_fmap in Href as (c & -> & Hc).
      apply list_elem_of_filter in Hc as [Hrun Hc]. by exists c.
    + by apply not_elem_of_nil in Href.
  - subst out pass. rewrite cmd_stop_run. simpl.
    destruct (negb (check_mode self) && _); simpl; [|by rewrite app_nil_r].
    by destruct (rt _ _).
  - subst out pass. rewrite cmd_stop_run. simpl.
    destruct (negb (check_mode self) && _); simpl; [|done].
    by destruct (rt _ _).
Qed.

(** ** The teardown loop *)

Section Down.

Variable self : ContainerManager.
Variable snap : Snapshot.

Lemma down_step_changed acc service :
  (down_step self snap acc service).1
  = acc.1 || nonempty (containers snap service true).
Proof.
  unfold down_step.
  destruct (containers snap service true); simpl;
    [by rewrite orb_false_r | by rewrite orb_true_r].
Qed.

Lemma down_step_diff acc service :
  (down_step self snap acc service).2
  = if diff self
    then <[service_name service := deleted_entry snap service]> acc.2
    else acc.2.
Proof. unfold down_step. by destruct (diff self). Qed.

Lemma down_pass_changed :
  (down_pass self snap).1 = true ↔
  ∃ service c, service ∈ services (project self)
               ∧ c ∈ containers snap service true.
Proof.
  unfold down_pass.
  rewrite (fold_left_changed _ _ down_step_changed). simpl.
  rewrite existsb_exists. split.
  - intros (service & Hin & Hn). apply nonempty_true in Hn as [c Hc].
    exists service, c. by rewrite <- list_elem_of_In in Hin.
  - intros (service & c & Hin & Hc). exists service.
    rewrite <- list_elem_of_In. split; [done|].
    apply nonempty_true. by exists c.
Qed.

Lemma down_pass_entry service :
  diff self = true → service ∈ services (project self) →
  (down_pass self snap).2 !! service_name service
  = Some (deleted_entry snap service).
Proof.
  intros Hdiff Hin. unfold down_pass.
  apply (fold_left_entry _ service_name (fun _ => diff self)
           (deleted_entry snap) down_step_diff); [|done..].
  intros x y Heq. split; [done|].
  unfold deleted_entry, containers. by rewrite Heq.
Qed.

Lemma down_pass_no_diff :
  diff self = false → (down_pass self snap).2 = ∅.
Proof.
  intros Hdiff. unfold down_pass.
  assert (∀ l acc, (fold_left (down_step self snap) l acc).2 = acc.2) as H.
  { induction l as [|x l IH]; intros acc; simpl; [done|].
    by rewrite IH, down_step_diff, Hdiff. }
  by rewrite H.
Qed.

End Down.

Lemma cmd_down_run rt self w :
  cmd_down rt self w =
  let pass := down_pass self (snapshot w) in
  let c := ProjectDown (remove_images self) (remove_volumes self)
                       (remove_orphans self) in
  if negb (check_mode self) && pass.1 then
    match rt c (snapshot w) with
    | Done snap => Ok (pass_result pass) (issued c snap w)
    | Raised exc snap => Failed (error_message self c exc) (issued c snap w)
    end
  else Ok (pass_result pass) w.
Proof.
  unfold cmd_down, mbind, M_bind, get_snapshot, try_except, fail, mret, M_ret.
  simpl. destruct (negb (check_mode self) && _); [|done].
  by destruct (rt _ _).
Qed.

Lemma cmd_restart_run rt self names w :
  cmd_restart rt self names w =
  let pass := targets_pass self "restart" true names (snapshot w) in
  let c := ProjectRestart names in
  if negb (check_mode self) && pass.1 then
    match rt c (snapshot w) with
    | Done snap => Ok (pass_result pass) (issued c snap w)
    | Raised exc snap => Failed (error_message self c exc) (issued c snap w)
    end
  else Ok (pass_result pass) w.
Proof.
  unfold cmd_restart, mbind, M_bind, get_snapshot, try_except, fail, mret,
    M_ret.
  simpl. destruct (negb (check_mode self) && _); [|done].
  by destruct (rt _ _).
Qed.

(** ** The convergence pass of [cmd_up] *)

Lemma strategy_of_up_options self :
  convergence_strategy_from_opts (up_options self)
  = {| forceRecreate := force_recreate self;
       allowRecreate := recreate self || force_recreate self |}.
Proof.
  unfold convergence_strategy_from_opts, up_options.
  destruct (force_recreate self), (recreate self), (remove_orphans self),
    (build self); reflexivity.
Qed.

Lemma no_recreate_of_up_options self :
  up_options self !! "--no-recreate"
  = Some (negb (recreate self || force_recreate self)).
Proof.
  unfold up_options.
  destruct (force_recreate self), (recreate self), (remove_orphans self),
    (build self); reflexivity.
Qed.

Lemma up_step_changed self snap acc service :
  (up_step self snap acc service).1
  = acc.1 || (considered (service_names self) service
              && bool_decide (action (planned self snap service) ≠ Noop)).
Proof.
  unfold up_step, planned.
  destruct (considered (service_names self) service); simpl;
    [|by rewrite orb_false_r].
  destruct (bool_decide _); [by rewrite orb_true_r | by rewrite orb_false_r].
Qed.

Lemma up_pass_changed self snap :
  (up_pass self snap).1 = true ↔
  ∃ service, service ∈ services (project self)
             ∧ considered (service_names self) service = true
             ∧ action (planned self snap service) ≠ Noop.
Proof.
  unfold up_pass.
  rewrite (fold_left_changed _ _ (up_step_changed self snap)). simpl.
  rewrite existsb_exists. split.
  - intros (service & Hin & H). apply andb_true_iff in H as [Hc Ha].
    apply bool_decide_eq_true in Ha. exists service.
    by rewrite <- list_elem_of_In in Hin.
  - intros (service & Hin & Hc & Ha). exists service.
    rewrite <- list_elem_of_In. split; [done|].
    apply andb_true_iff. split; [done|]. by apply bool_decide_eq_true.
Qed.

Lemma existsb_false {A : Type} (f : A → bool) (l : list A) :
  (∀ x, x ∈ l → f x = false) → existsb f l = false.
Proof.
  intros H. destruct (existsb f l) eqn:E; [|done].
  apply existsb_exists in E as (x & Hin & Hx).
  apply list_elem_of_In in Hin. by rewrite (H x Hin) in Hx.
Qed.

(** Up-to-date, running containers need nothing, unless recreation is
    forced. *)
Lemma planned_noop self snap service :
  force_recreate self = false →
  containers snap service true ≠ [] →
  (∀ c, c ∈ containers snap service true →
        config_hash c = service_hash service ∧ is_running c = true) →
  action (planned self snap service) = Noop.
Proof.
  intros Hforce Hne Hall. unfold planned, convergence_plan.
  rewrite strategy_of_up_options, Hforce.
  cbn [forceRecreate allowRecreate].
  remember (containers snap service true) as existing eqn:E.
  destruct existing as [|c l]; [done|].
  rewrite !existsb_false; [done| |].
  - intros x Hx. destruct (Hall x Hx) as [_ ->]. done.
  - intros x Hx. destruct (Hall x Hx) as [Hh _]. unfold diverged.
    apply bool_decide_eq_false. by intros [].
Qed.

Lemma planned_forced self snap service :
  force_recreate self = true →
  containers snap service true ≠ [] →
  planned self snap service
  = {| action := Recreate; plan_containers := containers snap service true |}.
Proof.
  intros Hforce Hne. unfold planned, convergence_plan.
  rewrite strategy_of_up_options, Hforce.
  cbn [forceRecreate allowRecreate].
  by destruct (containers snap service true).
Qed.

(** ** The scale loop *)

Lemma scale_step_run rt self acc service w :
  scale_step rt self acc service w =
  match scale self !! service_name service with
  | None => Ok acc w
  | Some count =>
    let c := ServiceScale (service_name service) count in
    let result := scale_pass_step self (snapshot w) acc service in
    if to_scale self (snapshot w) service && negb (check_mode self) then
      match rt c (snapshot w) with
      | Done snap => Ok result (issued c snap w)
      | Raised exc snap => Failed (error_message self c exc) (issued c snap w)
      end
    else Ok result w
  end.
Proof.
  unfold scale_step, scale_pass_step, to_scale, scale_entry.
  destruct (scale self !! service_name service) as [count|] eqn:E; [|done].
  unfold mbind, M_bind, get_snapshot, try_except, fail, mret, M_ret.
  cbn [snapshot fst snd]. rewrite (bool_decide_eq_true_2 (is_Some (Some count))) by (by eexists).
  destruct (bool_decide (_ ≠ count)) eqn:Hne.
  - rewrite orb_true_r, andb_true_r, andb_true_l.
    assert (∀ d : Diff,
      (if diff self
       then <[service_name service :=
                {[ "scale" := DiffDelta
                     (count - Z.of_nat (length (containers (snapshot w) service true))) ]}]>
              (<[service_name service := ∅]> d)
       else <[service_name service := ∅]> d)
      = <[service_name service :=
            if diff self
            then {[ "scale" := DiffDelta
                     (count - Z.of_nat (length (containers (snapshot w) service true))) ]}
            else ∅]> d) as Hd.
    { intros d. destruct (diff self); [apply insert_insert_eq | done]. }
    rewrite Hd. destruct (check_mode self); simpl; [done|].
    by destruct (rt _ _).
  - rewrite orb_false_r, andb_false_r. done.
Qed.

Lemma to_scale_agree self snap snap' service :
  snap !! service_name service = snap' !! service_name service →
  to_scale self snap service = to_scale self snap' service.
Proof. intros H. unfold to_scale, containers. by rewrite H. Qed.

Lemma scale_entry_agree self snap snap' service :
  snap !! service_name service = snap' !! service_name service →
  scale_entry self snap service = scale_entry self snap' service.
Proof. intros H. unfold scale_entry, containers. by rewrite H. Qed.

Lemma scale_fold_agree self snap snap' l acc :
  (∀ service, service ∈ l →
     snap !! service_name service = snap' !! service_name service) →
  fold_left (scale_pass_step self snap) l acc
  = fold_left (scale_pass_step self snap') l acc.
Proof.
  revert acc. induction l as [|x l IH]; intros acc H; simpl; [done|].
  rewrite IH by (intros y Hy; apply H; by apply list_elem_of_further).
  f_equal. unfold scale_pass_step.
  rewrite (to_scale_agree self snap snap'), (scale_entry_agree self snap snap');
    [done|apply H, list_elem_of_here..].
Qed.

(** ** Calls in sequence *)

Lemma completes_app rt snap calls snap' calls' snap'' :
  completes rt snap calls snap' →
  completes rt snap' calls' snap'' →
  completes rt snap (calls ++ calls') snap''.
Proof.
  induction 1 as [|? ? ? ? ? Hc _ IH]; intros H'; simpl; [done|].
  eapply completes_cons; [done|]. by apply IH.
Qed.

Section Traced.

Variable rt : Runtime.
Variable self : ContainerManager.

Lemma traced_ret {A : Type} (a : A) : traced rt self (mret a).
Proof. intros w. exists []. split; [by rewrite app_nil_r | constructor]. Qed.

Lemma traced_get_snapshot : traced rt self get_snapshot.
Proof. intros w. exists []. split; [by rewrite app_nil_r | constructor]. Qed.

Lemma traced_bind {A B : Type} (m : M A) (f : A → M B) :
  traced rt self m → (∀ a, traced rt self (f a)) → traced rt self (m ≫= f).
Proof.
  intros Hm Hf w. unfold mbind, M_bind. specialize (Hm w).
  destruct (m w) as [a w1|msg w1]; [|done].
  destruct Hm as (calls & Htr & Hrun). specialize (Hf a w1).
  destruct (f a w1) as [b w2|msg w2].
  - destruct Hf as (calls' & Htr' & Hrun'). exists (calls ++ calls').
    split; [by rewrite Htr', Htr, app_assoc|]. by eapply completes_app.
  - destruct Hf as (Hcheck & calls' & c & exc & snap & Htr' & Hrun' & Hc & ->).
    split; [done|]. exists (calls ++ calls'), c, exc, snap.
    split; [by rewrite Htr', Htr, !app_assoc|].
    split; [by eapply completes_app|done].
Qed.

(** The guarded call of every command: outside check mode, and with the
    handler that fails with the message of the call. *)
Lemma traced_call (b : bool) (c : Call) (handler : string → M unit) :
  (∀ exc, handler exc = fail (error_message self c exc)) →
  traced rt self
    (if negb (check_mode self) && b then try_except rt c handler
     else mret ()).
Proof.
  intros Hh. destruct (check_mode self) eqn:Hcheck; simpl;
    [apply traced_ret|].
  destruct b; [|apply traced_ret].
  intros w. unfold try_except.
  destruct (rt c (snapshot w)) as [snap|exc snap] eqn:Hc.
  - exists [c]. split; [done|]. eapply completes_cons; [done|constructor].
  - rewrite Hh. unfold fail. split; [done|]. exists [], c, exc, (snapshot w).
    split; [done|]. split; [constructor|done].
Qed.

Lemma traced_foldM {A B : Type} (f : A → B → M A) (l : list B) :
  (∀ a x, traced rt self (f a x)) → ∀ a, traced rt self (foldM f l a).
Proof.
  intros Hf. induction l as [|x l IH]; intros a; simpl.
  - apply traced_ret.
  - apply traced_bind; [apply Hf | apply IH].
Qed.

Lemma traced_cmd_stop names : traced rt self (cmd_stop rt self names).
Proof.
  unfold cmd_stop. apply traced_bind; [apply traced_get_snapshot|].
  intros snap. apply traced_bind; [by apply traced_call|].
  intros _. apply traced_ret.
Qed.

Lemma traced_cmd_restart names : traced rt self (cmd_restart rt self names).
Proof.
  unfold cmd_restart. apply traced_bind; [apply traced_get_snapshot|].
  intros snap. apply traced_bind; [by apply traced_call|].
  intros _. apply traced_ret.
Qed.

Lemma traced_cmd_down : traced rt self (cmd_down rt self).
Proof.
  unfold cmd_down. apply traced_bind; [apply traced_get_snapshot|].
  intros snap. apply traced_bind; [by apply traced_call|].
  intros _. apply traced_ret.
Qed.

Lemma traced_scale_step acc service :
  traced rt self (scale_step rt self acc service).
Proof.
  unfold scale_step. destruct (scale self !! service_name service);
    [|apply traced_ret].
  apply traced_bind; [apply traced_get_snapshot|]. intros snap.
  cbv zeta. destruct (bool_decide _); [|apply traced_ret].
  apply traced_bind; [|intros _; apply traced_ret].
  rewrite <- (andb_true_r (negb (check_mode self))). by apply traced_call.
Qed.

Lemma traced_cmd_scale : traced rt self (cmd_scale rt self).
Proof.
  unfold cmd_scale. apply traced_bind.
  - apply traced_foldM, traced_scale_step.
  - intros result. apply traced_ret.
Qed.

Lemma traced_cmd_up : traced rt self (cmd_up rt self).
Proof.
  unfold cmd_up. cbv zeta.
  apply traced_bind; [apply traced_get_snapshot|]. intros snap.
  apply traced_bind; [by apply traced_call|]. intros _.
  apply traced_bind.
  { destruct (stopped self); [|apply traced_ret].
    apply traced_bind; [apply traced_cmd_stop|]. intros; apply traced_ret. }
  intros result1. apply traced_bind.
  { destruct (restarted self); [|apply traced_ret].
    apply traced_bind; [apply traced_cmd_restart|]. intros; apply traced_ret. }
  intros result2. apply traced_bind.
  { destruct (bool_decide _); [|apply traced_ret].
    apply traced_bind; [apply traced_cmd_scale|]. intros; apply traced_ret. }
  intros result3. apply traced_bind; [apply traced_get_snapshot|].
  intros; apply traced_ret.
Qed.

Lemma traced_exec_module : traced rt self (exec_module rt self).
Proof.
  unfold exec_module.
  destruct (state self); [apply traced_cmd_up | apply traced_cmd_down].
Qed.

End Traced.

(** ** The scale loop against the runtime *)

Lemma scale_pass_step_skip self snap acc service :
  scale self !! service_name service = None →
  scale_pass_step self snap acc service = acc.
Proof.
  intros H. unfold scale_pass_step. rewrite H.
  rewrite bool_decide_eq_false_2; [done|]. by intros [? ?].
Qed.

(** In check mode, or when calls leave the containers alone, the loop
    returns what it computes on the snapshot it started from. *)
Lemma scale_loop_quiet rt self l :
  check_mode self = true ∨ inert rt →
  ∀ acc w,
    ∃ w', foldM (scale_step rt self) l acc w
          = Ok (fold_left (scale_pass_step self (snapshot w)) l acc) w'
          ∧ snapshot w' = snapshot w
          ∧ (check_mode self = true → w' = w).
Proof.
  intros Hq. induction l as [|x l IH]; intros acc w; simpl.
  - by exists w.
  - unfold mbind, M_bind. rewrite scale_step_run.
    destruct (scale self !! service_name x) as [count|] eqn:E.
    + cbv zeta.
      destruct (to_scale self (snapshot w) x && negb (check_mode self)) eqn:Hc.
      * apply andb_true_iff in Hc as [_ Hc]. apply negb_true_iff in Hc.
        destruct Hq as [Hq|Hq]; [congruence|]. rewrite Hq.
        destruct (IH (scale_pass_step self (snapshot w) acc x)
                     (issued (ServiceScale (service_name x) count)
                             (snapshot w) w))
          as (w' & -> & Hs & Hw).
        exists w'. split; [done|]. split; [done|]. congruence.
      * apply IH.
    + rewrite (scale_pass_step_skip _ _ _ _ E). apply IH.
Qed.

(** When scaling a service changes that service only, the loop still
    computes everything on the snapshot it started from, calls
    [service.scale] for the services to scale and changes no other. *)
Lemma scale_loop_local rt self l :
  scales_locally rt →
  ∀ acc w, NoDup (service_name <$> l) →
    let out := foldM (scale_step rt self) l acc w in
    (∀ result, value_of out = Some result →
       result = fold_left (scale_pass_step self (snapshot w)) l acc)
    ∧ (∀ k, (∀ y, y ∈ l → to_scale self (snapshot w) y = true →
                  service_name y ≠ k) →
            snapshot (world_of out) !! k = snapshot w !! k)
    ∧ ∃ calls,
        trace (world_of out) = trace w ++ calls
        ∧ ∀ c, c ∈ calls →
            ∃ y count, y ∈ l ∧ c = ServiceScale (service_name y) count
                       ∧ scale self !! service_name y = Some count
                       ∧ to_scale self (snapshot w) y = true
                       ∧ check_mode self = false.
Proof.
  intros Hloc. induction l as [|x l IH]; intros acc w Hnd; simpl.
  - split; [by intros ? [= <-]|]. split; [done|].
    exists []. split; [by rewrite app_nil_r|].
    intros c Hc. by apply not_elem_of_nil in Hc.
  - rewrite fmap_cons in Hnd. apply NoDup_cons in Hnd as [Hx Hnd].
    assert (∀ y, y ∈ l → service_name y ≠ service_name x) as Hother.
    { intros y Hy Heq. apply Hx. rewrite <- Heq.
      by apply list_elem_of_fmap_2. }
    unfold mbind, M_bind. rewrite scale_step_run.
    destruct (scale self !! service_name x) as [count|] eqn:E.
    + cbv zeta.
      destruct (to_scale self (snapshot w) x && negb (check_mode self)) eqn:Hc.
      * apply andb_true_iff in Hc as [Hts Hc]. apply negb_true_iff in Hc.
        pose proof (Hloc (service_name x) count (snapshot w)) as Hl.
        destruct (rt (ServiceScale (service_name x) count) (snapshot w))
          as [snap|exc snap] eqn:Hrt.
        -- set (w1 := issued (ServiceScale (service_name x) count) snap w).
           assert (∀ y, y ∈ l →
                     snapshot w1 !! service_name y
                     = snapshot w !! service_name y) as Hagree.
           { intros y Hy. apply Hl. by apply Hother. }
           destruct (IH (scale_pass_step self (snapshot w) acc x) w1 Hnd)
             as (Hres & Hsnap & calls & Htr & Hcalls).
           split; [|split].
           ++ intros result Hv. rewrite (Hres result Hv).
              by apply scale_fold_agree.
           ++ intros k Hk. rewrite Hsnap.
              ** apply Hl. intros ->.
                 by apply (Hk x); [apply list_elem_of_here|..].
              ** intros y Hy Hty. apply Hk; [by apply list_elem_of_further|].
                 by rewrite <- (to_scale_agree self _ _ y (Hagree y Hy)).
           ++ exists (ServiceScale (service_name x) count :: calls).
              split; [by rewrite Htr; simpl; rewrite <- app_assoc|].
              intros c Hcin. apply elem_of_cons in Hcin as [->|Hcin].
              ** exists x, count. by split; [apply list_elem_of_here|].
              ** destruct (Hcalls c Hcin) as (y & n & Hy & -> & Hn & Hty & Hcm).
                 exists y, n. split; [by apply list_elem_of_further|].
                 repeat split; [done| |done].
                 by rewrite <- (to_scale_agree self _ _ y (Hagree y Hy)).
        -- simpl. split; [done|]. split.
           ++ intros k Hk. apply Hl. intros ->.
              by apply (Hk x); [apply list_elem_of_here|..].
           ++ exists [ServiceScale (service_name x) count]. split; [done|].
              intros c Hcin. apply list_elem_of_singleton in Hcin as ->.
              exists x, count. by split; [apply list_elem_of_here|].
      * destruct (IH (scale_pass_step self (snapshot w) acc x) w Hnd)
          as (Hres & Hsnap & calls & Htr & Hcalls).
        split; [done|]. split.
        -- intros k Hk. apply Hsnap. intros y Hy. apply Hk.
           by apply list_elem_of_further.
        -- exists calls. split; [done|]. intros c Hcin.
           destruct (Hcalls c Hcin) as (y & n & Hy & H).
           exists y, n. by split; [apply list_elem_of_further|].
    + rewrite (scale_pass_step_skip _ _ _ _ E).
      destruct (IH acc w Hnd) as (Hres & Hsnap & calls & Htr & Hcalls).
      split; [done|]. split.
      * intros k Hk. apply Hsnap. intros y Hy. apply Hk.
        by apply list_elem_of_further.
      * exists calls. split; [done|]. intros c Hcin.
        destruct (Hcalls c Hcin) as (y & n & Hy & H).
        exists y, n. by split; [apply list_elem_of_further|].
Qed.

(** The scale pass on a fixed snapshot. *)
Lemma scale_pass_step_changed self snap acc service :
  (scale_pass_step self snap acc service).1
  = acc.1 || to_scale self snap service.
Proof.
  unfold scale_pass_step. destruct (bool_decide _) eqn:E; [done|].
  apply bool_decide_eq_false in E. unfold to_scale.
  destruct (scale self !! service_name service); [|by rewrite orb_false_r].
  destruct E. by eexists.
Qed.

Lemma scale_pass_step_diff self snap acc service :
  (scale_pass_step self snap acc service).2
  = if bool_decide (is_Some (scale self !! service_name service))
    then <[service_name service := scale_entry self snap service]> acc.2
    else acc.2.
Proof. unfold scale_pass_step. by destruct (bool_decide _). Qed.

Lemma scale_pass_changed self snap :
  (scale_pass self snap).1 = true ↔
  ∃ service, service ∈ services (project self)
             ∧ to_scale self snap service = true.
Proof.
  unfold scale_pass.
  rewrite (fold_left_changed _ _ (scale_pass_step_changed self snap)). simpl.
  rewrite existsb_exists. split.
  - intros (service & Hin & H). exists service.
    by rewrite <- list_elem_of_In in Hin.
  - intros (service & Hin & H). exists service.
    by rewrite <- list_elem_of_In.
Qed.

Lemma scale_by_name self snap (x y : Service) :
  service_name x = service_name y →
  bool_decide (is_Some (scale self !! service_name x))
  = bool_decide (is_Some (scale self !! service_name y))
  ∧ scale_entry self snap x = scale_entry self snap y.
Proof.
  intros Heq. unfold scale_entry, containers. by rewrite Heq.
Qed.

Lemma scale_pass_entry self snap service :
  service ∈ services (project self) →
  is_Some (scale self !! service_name service) →
  (scale_pass self snap).2 !! service_name service
  = Some (scale_entry self snap service).
Proof.
  intros Hin Hs. unfold scale_pass.
  apply (fold_left_entry _ service_name
           (fun x => bool_decide (is_Some (scale self !! service_name x)))
           (scale_entry self snap)
           (scale_pass_step_diff self snap) (scale_by_name self snap));
    [done|]. by apply bool_decide_eq_true.
Qed.

Lemma scale_pass_written self snap k m :
  (scale_pass self snap).2 !! k = Some m →
  ∃ service, service ∈ services (project self)
             ∧ is_Some (scale self !! service_name service)
             ∧ service_name service = k ∧ m = scale_entry self snap service.
Proof.
  intros H.
  destruct (fold_left_written _ service_name
              (fun x => bool_decide (is_Some (scale self !! service_name x)))
              (scale_entry self snap)
              (scale_pass_step_diff self snap) _ _ _ _ H)
    as [Hempty | (x & Hx & Hw & Hk & Hm)].
  - simpl in Hempty. by rewrite lookup_empty in Hempty.
  - exists x. apply bool_decide_eq_true in Hw. done.
Qed.

(** ** Runs that leave the containers alone *)

Lemma quiet_step rt self {A B : Type} (m : M A) (f : A → M B) v w :
  quiet rt self m v →
  ∃ w1, (m ≫= f) w = f (v (snapshot w)) w1
        ∧ snapshot w1 = snapshot w
        ∧ (check_mode self = true → w1 = w).
Proof.
  intros Hm. unfold mbind, M_bind.
  destruct (Hm w) as (w1 & -> & Hs1 & Hw1). by exists w1.
Qed.

(** One step of a quiet run: the first command of a sequence returns and
    hands its value to the rest. *)
Ltac quiet_next tac w1 Hs Hw :=
  lazymatch goal with
  | |- ∃ _, mbind ?f ?m ?w = _ ∧ _ =>
    let Hq := fresh "Hq" in
    eassert (quiet _ _ m _) as Hq by tac;
    destruct (quiet_step _ _ m f _ w Hq) as (w1 & -> & Hs & Hw); clear Hq
  end.

Section Quiet.

Variable rt : Runtime.
Variable self : ContainerManager.
Hypothesis untouched : check_mode self = true ∨ inert rt.

Lemma quiet_ret {A : Type} (a : A) : quiet rt self (mret a) (fun _ => a).
Proof. intros w. by exists w. Qed.

Lemma quiet_get_snapshot : quiet rt self get_snapshot (fun snap => snap).
Proof. intros w. by exists w. Qed.

Lemma quiet_call (b : bool) (c : Call) (handler : string → M unit) :
  quiet rt self
    (if negb (check_mode self) && b then try_except rt c handler
     else mret ())
    (fun _ => ()).
Proof.
  destruct (negb (check_mode self) && b) eqn:E; [|apply quiet_ret].
  apply andb_true_iff in E as [E _]. apply negb_true_iff in E.
  destruct untouched as [?|Hin]; [congruence|].
  intros w. unfold try_except. rewrite Hin. eexists. split; [done|].
  split; [done|congruence].
Qed.

Lemma quiet_cmd_stop names :
  quiet rt self (cmd_stop rt self names)
    (fun snap => pass_result (targets_pass self "stop" false names snap)).
Proof.
  intros w. unfold cmd_stop.
  quiet_next ltac:(apply quiet_get_snapshot) w1 Hs1 Hw1.
  quiet_next ltac:(apply quiet_call) w2 Hs2 Hw2.
  exists w2. split; [done|]. split; [congruence|].
  intros Hc. by rewrite (Hw2 Hc), (Hw1 Hc).
Qed.

Lemma quiet_cmd_restart names :
  quiet rt self (cmd_restart rt self names)
    (fun snap => pass_result (targets_pass self "restart" true names snap)).
Proof.
  intros w. unfold cmd_restart.
  quiet_next ltac:(apply quiet_get_snapshot) w1 Hs1 Hw1.
  quiet_next ltac:(apply quiet_call) w2 Hs2 Hw2.
  exists w2. split; [done|]. split; [congruence|].
  intros Hc. by rewrite (Hw2 Hc), (Hw1 Hc).
Qed.

Lemma quiet_cmd_down :
  quiet rt self (cmd_down rt self)
    (fun snap => pass_result (down_pass self snap)).
Proof.
  intros w. unfold cmd_down.
  quiet_next ltac:(apply quiet_get_snapshot) w1 Hs1 Hw1.
  quiet_next ltac:(apply quiet_call) w2 Hs2 Hw2.
  exists w2. split; [done|]. split; [congruence|].
  intros Hc. by rewrite (Hw2 Hc), (Hw1 Hc).
Qed.

Lemma quiet_cmd_scale :
  quiet rt self (cmd_scale rt self)
    (fun snap => pass_result (scale_pass self snap)).
Proof.
  intros w. unfold cmd_scale, mbind, M_bind.
  destruct (scale_loop_quiet rt self (services (project self)) untouched
              (false, ∅) w) as (w' & -> & Hs & Hw).
  by exists w'.
Qed.

(** A modifier of [cmd_up]: run the command and update the result. *)
Lemma quiet_modifier (b : bool) (cmd : M Result) v (result : Result) :
  quiet rt self cmd v →
  quiet rt self
    (if b then other ← cmd; mret (update result other) else mret result)
    (fun snap => if b then update result (v snap) else result).
Proof.
  intros Hcmd. destruct b; [|apply quiet_ret].
  intros w. quiet_next ltac:(apply Hcmd) w1 Hs1 Hw1. by exists w1.
Qed.

Lemma quiet_cmd_up : quiet rt self (cmd_up rt self) (up_result self).
Proof.
  intros w. unfold cmd_up. cbv zeta.
  quiet_next ltac:(apply quiet_get_snapshot) w1 Hs1 Hw1.
  quiet_next ltac:(apply quiet_call) w2 Hs2 Hw2.
  quiet_next ltac:(apply quiet_modifier, quiet_cmd_stop) w3 Hs3 Hw3.
  quiet_next ltac:(apply quiet_modifier, quiet_cmd_restart) w4 Hs4 Hw4.
  quiet_next ltac:(apply quiet_modifier, quiet_cmd_scale) w5 Hs5 Hw5.
  quiet_next ltac:(apply quiet_get_snapshot) w6 Hs6 Hw6.
  exists w6. rewrite Hs5, Hs4, Hs3, Hs2, Hs1.
  split; [done|]. split; [congruence|].
  intros Hc. by rewrite (Hw6 Hc), (Hw5 Hc), (Hw4 Hc), (Hw3 Hc), (Hw2 Hc), (Hw1 Hc).
Qed.

Lemma quiet_exec_module :
  quiet rt self (exec_module rt self) (module_result self).
Proof.
  unfold exec_module, module_result.
  destruct (state self); [apply quiet_cmd_up | apply quiet_cmd_down].
Qed.

End Quiet.

(** ** [cmd_up] without and with a modifier *)

Lemma update_pass_result (result : Result) pass :
  changed_of (update result (pass_result pass)) = Some pass.1
  ∧ diff_of (update result (pass_result pass)) = Some pass.2
  ∧ facts_of (update result (pass_result pass)) = facts_of result.
Proof.
  unfold changed_of, diff_of, facts_of, update.
  rewrite (lookup_union_Some_l _ _ "changed" (VBool pass.1)) by reflexivity.
  rewrite (lookup_union_Some_l _ _ "diff" (VDiff pass.2)) by reflexivity.
  by rewrite (lookup_union_r (pass_result pass) result "ansible_facts")
    by reflexivity.
Qed.

(** Writing the facts leaves [changed] and [diff] as they are. *)
Lemma facts_insert_keeps (result : Result) f :
  changed_of (<["ansible_facts" := VFacts f]> result) = changed_of result
  ∧ diff_of (<["ansible_facts" := VFacts f]> result) = diff_of result.
Proof.
  unfold changed_of, diff_of. by rewrite !lookup_insert_ne.
Qed.

(** With no modifier, [cmd_up] returns what the convergence pass found and
    calls [project.up] when that is a change. *)
Lemma cmd_up_plain rt self w r w' :
  stopped self = false → restarted self = false → scale self = ∅ →
  cmd_up rt self w = Ok r w' →
  changed_of r = Some (up_pass self (snapshot w)).1
  ∧ diff_of r = Some (up_pass self (snapshot w)).2.
Proof.
  intros Hst Hre Hsc. unfold cmd_up. cbv zeta.
  rewrite Hst, Hre, Hsc.
  rewrite (bool_decide_eq_false_2 (∅ ≠ ∅)) by (by intros []).
  unfold mbind, M_bind, get_snapshot, try_except, fail, mret, M_ret.
  cbn [snapshot].
  destruct (negb (check_mode self) && _).
  - destruct (rt _ _); [|done]. intros [= <- <-].
    destruct (facts_insert_keeps
                (<["ansible_facts" := VFacts ∅]>
                   (result_dict (up_pass self (snapshot w)).1
                                (up_pass self (snapshot w)).2))
                (collect_facts self snap)) as [-> ->].
    by destruct (facts_insert_keeps
                   (result_dict (up_pass self (snapshot w)).1
                                (up_pass self (snapshot w)).2) ∅) as [-> ->].
  - intros [= <- <-].
    destruct (facts_insert_keeps
                (<["ansible_facts" := VFacts ∅]>
                   (result_dict (up_pass self (snapshot w)).1
                                (up_pass self (snapshot w)).2))
                (collect_facts self (snapshot w))) as [-> ->].
    by destruct (facts_insert_keeps
                   (result_dict (up_pass self (snapshot w)).1
                                (up_pass self (snapshot w)).2) ∅) as [-> ->].
Qed.

(** With [restarted] alone and nothing to converge, [cmd_up] is
    [cmd_restart] on the containers as they were. *)
Lemma cmd_up_restarted rt self w :
  restarted self = true → stopped self = false → scale self = ∅ →
  (up_pass self (snapshot w)).1 = false →
  let pass :=
    targets_pass self "restart" true (service_names self) (snapshot w) in
  let out := cmd_up rt self w in
  let c := ProjectRestart (service_names self) in
  (∀ r, value_of out = Some r →
        changed_of r = Some pass.1 ∧ diff_of r = Some pass.2)
  ∧ trace (world_of out)
    = trace w ++ (if negb (check_mode self) && pass.1 then [c] else [])
  ∧ (value_of out = None ↔
     negb (check_mode self) && pass.1 && raises (rt c (snapshot w)) = true).
Proof.
  intros Hre Hst Hsc Hup. cbv zeta. unfold cmd_up. cbv zeta.
  rewrite Hst, Hre, Hsc.
  rewrite (bool_decide_eq_false_2 (∅ ≠ ∅)) by (by intros []).
  unfold mbind, M_bind, get_snapshot, mret, M_ret. cbn [snapshot].
  rewrite Hup, andb_false_r. rewrite cmd_restart_run. cbv zeta.
  destruct (negb (check_mode self) && _) eqn:Hg.
  - destruct (rt _ _) as [snap|exc snap]; cbn.
    + split; [|split; [done|by split]].
      intros r [= <-].
      destruct (facts_insert_keeps
                  (update (<["ansible_facts" := VFacts ∅]>
                             (result_dict false (up_pass self (snapshot w)).2))
                          (pass_result (targets_pass self "restart" true
                                          (service_names self) (snapshot w))))
                  (collect_facts self snap)) as [-> ->].
      by destruct (update_pass_result
                     (<["ansible_facts" := VFacts ∅]>
                        (result_dict false (up_pass self (snapshot w)).2))
                     (targets_pass self "restart" true (service_names self)
                                   (snapshot w))) as (-> & -> & _).
    + split; [done|]. split; [done|by split].
  - cbn. split; [|split; [by rewrite app_nil_r|by split]].
    intros r [= <-].
    destruct (facts_insert_keeps
                (update (<["ansible_facts" := VFacts ∅]>
                           (result_dict false (up_pass self (snapshot w)).2))
                        (pass_result (targets_pass self "restart" true
                                        (service_names self) (snapshot w))))
                (collect_facts self (snapshot w))) as [-> ->].
    by destruct (update_pass_result
                   (<["ansible_facts" := VFacts ∅]>
                      (result_dict false (up_pass self (snapshot w)).2))
                   (targets_pass self "restart" true (service_names self)
                                 (snapshot w))) as (-> & -> & _).
Qed.

(** ** The convergence pass: when it reports a change *)

(** C1 (amended): the convergence pass of [cmd_up] reports a change exactly
    when the plan of a considered service has an action other than noop; in
    particular it reports none when recreation is not forced and every
    considered service has containers, all of them up to date and
    running. *)
Theorem up_changed_iff_action self snap :
  ((up_pass self snap).1 = true ↔
   ∃ service, service ∈ services (project self)
              ∧ considered (service_names self) service = true
              ∧ action (planned self snap service) ≠ Noop)
  ∧ (force_recreate self = false →
     (∀ service, service ∈ services (project self) →
        considered (service_names self) service = true →
        containers snap service true ≠ []
        ∧ ∀ c, c ∈ containers snap service true →
               config_hash c = service_hash service ∧ is_running c = true) →
     (up_pass self snap).1 = false).
Proof.
  split; [apply up_pass_changed|].
  intros Hforce Hall. apply not_true_is_false. intros Hch.
  apply up_pass_changed in Hch as (service & Hin & Hc & Ha).
  destruct (Hall service Hin Hc) as [Hne Hcs].
  by apply Ha, planned_noop.
Qed.

Lemma up_changed_iff_action_witness :
  force_recreate defaults = false
  ∧ (up_pass defaults converged_snapshot).1 = false.
Proof.
  split; [reflexivity|].
  apply (up_changed_iff_action defaults converged_snapshot); [reflexivity|].
  intros service Hin _.
  apply elem_of_cons in Hin as [->|Hin];
    [|apply list_elem_of_singleton in Hin as ->].
  - split; [by vm_compute|]. intros c Hc. vm_compute in Hc.
    apply list_elem_of_singleton in Hc as ->. by vm_compute.
  - split; [by vm_compute|]. intros c Hc. vm_compute in Hc.
    apply list_elem_of_singleton in Hc as ->. by vm_compute.
Defined.

(** C1, as stated, fails: with every existing container up to date and
    running, the pass still reports a change when recreation is forced, and
    when a service has no container yet. *)
Lemma up_changed_though_converged :
  ((∀ service c, service ∈ services demo →
      c ∈ containers converged_snapshot service true →
      config_hash c = service_hash service ∧ is_running c = true)
   ∧ (up_pass forced converged_snapshot).1 = true)
  ∧ ((∀ service c, service ∈ services demo →
        c ∈ containers ∅ service true →
        config_hash c = service_hash service ∧ is_running c = true)
     ∧ (up_pass defaults ∅).1 = true).
Proof.
  split; (split; [|by vm_compute]).
  - intros service c Hin Hc.
    apply elem_of_cons in Hin as [->|Hin];
      [|apply list_elem_of_singleton in Hin as ->];
      vm_compute in Hc; apply list_elem_of_singleton in Hc as ->;
      by vm_compute.
  - intros service c Hin Hc.
    apply elem_of_cons in Hin as [->|Hin];
      [|apply list_elem_of_singleton in Hin as ->];
      vm_compute in Hc; by apply not_elem_of_nil in Hc.
Qed.

(** C3: with [force_recreate] set, the options never carry
    [--no-recreate], whatever [recreate] says, and the plan of every service
    that has a container is to recreate all its containers, up to date or
    not; a considered service of the project then makes the pass report a
    change. *)
Theorem force_recreate_dominates self snap service :
  force_recreate self = true →
  containers snap service true ≠ [] →
  up_options self !! "--no-recreate" = Some false
  ∧ up_options self !! "--force-recreate" = Some true
  ∧ planned self snap service
    = {| action := Recreate;
         plan_containers := containers snap service true |}
  ∧ (service ∈ services (project self) →
     considered (service_names self) service = true →
     (up_pass self snap).1 = true).
Proof.
  intros Hforce Hne. split; [|split; [|split]].
  - by rewrite no_recreate_of_up_options, Hforce, orb_true_r.
  - unfold up_options. rewrite Hforce.
    destruct (remove_orphans self); [rewrite lookup_insert_ne by done|];
      apply lookup_insert_eq.
  - by apply planned_forced.
  - intros Hin Hc. apply up_pass_changed. exists service.
    split; [done|]. split; [done|]. by rewrite planned_forced.
Qed.

Lemma force_recreate_dominates_witness :
  force_recreate forced = true
  ∧ containers converged_snapshot web true ≠ []
  ∧ planned forced converged_snapshot web
    = {| action := Recreate;
         plan_containers := containers converged_snapshot web true |}.
Proof.
  split; [reflexivity|]. split; [by vm_compute|].
  apply (force_recreate_dominates forced converged_snapshot web);
    [reflexivity | by vm_compute].
Defined.

(** ** Check mode *)

Lemma inert_idle : inert idle.
Proof. by intros c snap. Qed.

(** C2 (amended): in check mode the module issues no call and cannot fail:
    it returns, with the world as it found it, what the commands compute on
    the containers as they are.  An execute-mode run on which no call
    changes a container returns the same; and for a teardown, or an up with
    no modifier, every execute-mode run that returns reports the same
    [changed] and [diff], those of the first pass. *)
Theorem check_mode_issues_no_call rt self w :
  check_mode self = true →
  let r := module_result self (snapshot w) in
  exec_module rt self w = Ok r w
  ∧ (∃ w', exec_module idle (with_check_mode false self) w = Ok r w')
  ∧ (state self = absent
     ∨ (stopped self = false ∧ restarted self = false ∧ scale self = ∅) →
     (changed_of r, diff_of r)
     = (match state self with
        | present => (Some (up_pass self (snapshot w)).1,
                      Some (up_pass self (snapshot w)).2)
        | absent => (Some (down_pass self (snapshot w)).1,
                     Some (down_pass self (snapshot w)).2)
        end)
     ∧ ∀ rt' r' w',
         exec_module rt' (with_check_mode false self) w = Ok r' w' →
         changed_of r' = changed_of r ∧ diff_of r' = diff_of r).
Proof.
  intros Hcheck r.
  assert (exec_module rt self w = Ok r w) as Hrun.
  { destruct (quiet_exec_module rt self (or_introl Hcheck) w)
      as (w' & Heq & _ & Hw).
    by rewrite (Hw Hcheck) in Heq. }
  split; [done|]. split.
  { destruct (quiet_exec_module idle (with_check_mode false self)
                (or_intror inert_idle) w) as (w' & Heq & _).
    by exists w'. }
  intros Hplain.
  assert ((changed_of r, diff_of r)
          = (match state self with
             | present => (Some (up_pass self (snapshot w)).1,
                           Some (up_pass self (snapshot w)).2)
             | absent => (Some (down_pass self (snapshot w)).1,
                          Some (down_pass self (snapshot w)).2)
             end)) as Hr.
  { subst r. unfold module_result. unfold exec_module in Hrun.
    destruct (state self) eqn:Hstate.
    - destruct Hplain as [?|(Hst & Hre & Hsc)]; [done|].
      unfold module_result in Hrun. rewrite Hstate in Hrun.
      by destruct (cmd_up_plain rt self w _ _ Hst Hre Hsc Hrun) as [-> ->].
    - done. }
  split; [done|].
  intros rt' r' w' Hrun'. unfold exec_module in Hrun'.
  cbn [state with_check_mode] in Hrun'.
  destruct (state self) eqn:Hstate; injection Hr as -> ->.
  - destruct Hplain as [?|(Hst & Hre & Hsc)]; [done|].
    by destruct (cmd_up_plain rt' (with_check_mode false self) w _ _
                   Hst Hre Hsc Hrun') as [-> ->].
  - rewrite cmd_down_run in Hrun'. cbv zeta in Hrun'.
    destruct (negb _ && _) in Hrun'.
    + destruct (rt' _ _) in Hrun'; [|done]. by injection Hrun' as <- _.
    + by injection Hrun' as <- _.
Qed.

Lemma check_mode_issues_no_call_witness :
  check_mode checking = true
  ∧ exec_module broken checking (fresh exited_snapshot)
    = Ok (module_result checking exited_snapshot) (fresh exited_snapshot).
Proof.
  split; [reflexivity|].
  apply (check_mode_issues_no_call broken checking (fresh exited_snapshot)).
  reflexivity.
Defined.

(** C2, as stated, fails once a modifier follows a pass that found a
    change: with [stopped] set and both containers exited, check mode
    returns unchanged, the result of [cmd_stop] on containers that are not
    running; an execute-mode run has computed a change before it first
    touches the runtime, and after [project.up] has started the containers
    it stops them and returns changed. *)
Lemma check_mode_misses_later_change :
  changed_of <$> value_of (exec_module starting
                             (with_check_mode true stopping)
                             (fresh exited_snapshot))
  = Some (Some false)
  ∧ (up_pass stopping exited_snapshot).1 = true
  ∧ changed_of <$> value_of (exec_module starting stopping
                               (fresh exited_snapshot))
    = Some (Some true)
  ∧ trace (world_of (exec_module starting stopping (fresh exited_snapshot)))
    = [ProjectUp [] true (up_options stopping) true false; ProjectStop []].
Proof. by vm_compute. Qed.

(** ** Restart *)

(** C5 (amended): [cmd_restart] takes every container of the requested
    services, running or not: it reports a change exactly when there is
    one, and with diff output on it lists each of them.  With [restarted]
    the only modifier and nothing to converge, [cmd_up] returns the
    [changed] and [diff] of that restart, calls [project.restart] outside
    check mode when there is a container, and fails only if that call
    raises. *)
Theorem restart_targets_all rt self w :
  let names := service_names self in
  let pass := targets_pass self "restart" true names (snapshot w) in
  let c := ProjectRestart names in
  (pass.1 = true ↔
   ∃ service c, service ∈ services (project self)
                ∧ considered names service = true
                ∧ c ∈ containers (snapshot w) service true)
  ∧ (diff self = true →
     ∀ service c, service ∈ services (project self) →
       considered names service = true →
       c ∈ containers (snapshot w) service true →
       ∃ l, pass.2 !! service_name service
            = Some {[ "restart" := DiffContainers l ]}
            ∧ container_ref c ∈ l)
  ∧ value_of (cmd_restart rt self names w)
    = (if negb (check_mode self) && pass.1 && raises (rt c (snapshot w))
       then None else Some (pass_result pass))
  ∧ (restarted self = true → stopped self = false → scale self = ∅ →
     (up_pass self (snapshot w)).1 = false →
     let out := cmd_up rt self w in
     (∀ r, value_of out = Some r →
           changed_of r = Some pass.1 ∧ diff_of r = Some pass.2)
     ∧ trace (world_of out)
       = trace w ++ (if negb (check_mode self) && pass.1 then [c] else [])
     ∧ (value_of out = None ↔
        negb (check_mode self) && pass.1 && raises (rt c (snapshot w))
        = true)).
Proof.
  intros names pass c. split; [apply targets_pass_changed|]. split; [|split].
  - intros Hdiff service c' Hin Hc Hc'.
    eexists. split.
    + subst pass. rewrite (targets_pass_entry _ _ _ _ _ _ Hin Hc).
      unfold target_entry. by rewrite Hdiff.
    + by apply list_elem_of_fmap_2.
  - rewrite cmd_restart_run. cbv zeta. fold names pass c.
    destruct (negb (check_mode self) && pass.1); [|done].
    by destruct (rt c (snapshot w)).
  - intros Hre Hst Hsc Hup. by apply cmd_up_restarted.
Qed.

Lemma restart_targets_all_witness :
  (restarted restarting = true ∧ stopped restarting = false
   ∧ scale restarting = ∅
   ∧ (up_pass restarting converged_snapshot).1 = false)
  ∧ trace (world_of (cmd_up idle restarting (fresh converged_snapshot)))
    = [] ++ (if negb (check_mode restarting)
                && (targets_pass restarting "restart" true
                      (service_names restarting) converged_snapshot).1
             then [ProjectRestart (service_names restarting)] else []).
Proof.
  split; [by vm_compute|].
  apply (restart_targets_all idle restarting (fresh converged_snapshot));
    reflexivity.
Defined.

(** C5, as stated, fails: on a converged project with [restarted] set, a
    scale map that asks for the count a service already has makes the
    overall result unchanged, with no container in its diff, although both
    containers were restarted; and without diff output the restart diff
    lists no container. *)
Lemma restarted_result_replaced :
  ((up_pass restarting_scaled converged_snapshot).1 = false
   ∧ changed_of <$> value_of (exec_module idle restarting_scaled
                                (fresh converged_snapshot))
     = Some (Some false)
   ∧ diff_of <$> value_of (exec_module idle restarting_scaled
                             (fresh converged_snapshot))
     = Some (Some {[ "web" := ∅ ]})
   ∧ trace (world_of (exec_module idle restarting_scaled
                        (fresh converged_snapshot)))
     = [ProjectRestart []])
  ∧ ((up_pass restarting_quietly converged_snapshot).1 = false
     ∧ changed_of <$> value_of (exec_module idle restarting_quietly
                                  (fresh converged_snapshot))
       = Some (Some true)
     ∧ diff_of <$> value_of (exec_module idle restarting_quietly
                               (fresh converged_snapshot))
       = Some (Some {[ "db" := {[ "restart" := DiffContainers [] ]};
                       "web" := {[ "restart" := DiffContainers [] ]} ]})).
Proof. by vm_compute. Qed.

(** ** Teardown *)

(** C6 (amended): [cmd_down] reports a change exactly when some service of
    the project has a container, running or not; with diff output on, the
    diff lists every such container of a service under [deleted], and with
    it off the diff stays empty; [project.down] is called exactly when it is
    not check mode and there is a change, so with no container the result
    is unchanged and nothing is called. *)
Theorem teardown_changed_iff_containers rt self w :
  let pass := down_pass self (snapshot w) in
  let out := cmd_down rt self w in
  let c := ProjectDown (remove_images self) (remove_volumes self)
                       (remove_orphans self) in
  (pass.1 = true ↔
   ∃ service c, service ∈ services (project self)
                ∧ c ∈ containers (snapshot w) service true)
  ∧ (diff self = true →
     ∀ service c, service ∈ services (project self) →
       c ∈ containers (snapshot w) service true →
       ∃ l, pass.2 !! service_name service
            = Some {[ "deleted" := DiffNames l ]}
            ∧ container_name c ∈ l)
  ∧ (diff self = false → pass.2 = ∅)
  ∧ trace (world_of out)
    = trace w ++ (if negb (check_mode self) && pass.1 then [c] else [])
  ∧ value_of out
    = (if negb (check_mode self) && pass.1 && raises (rt c (snapshot w))
       then None else Some (pass_result pass))
  ∧ ((∀ service, service ∈ services (project self) →
        containers (snapshot w) service true = []) →
     pass.1 = false ∧ out = Ok (pass_result pass) w).
Proof.
  intros pass out c. split; [apply down_pass_changed|].
  split; [|split; [apply down_pass_no_diff|]].
  { intros Hdiff service c' Hin Hc'. eexists. split.
    - subst pass. by rewrite (down_pass_entry _ _ _ Hdiff Hin).
    - by apply list_elem_of_fmap_2. }
  assert (out = let pass := down_pass self (snapshot w) in
                if negb (check_mode self) && pass.1 then
                  match rt c (snapshot w) with
                  | Done snap => Ok (pass_result pass) (issued c snap w)
                  | Raised exc snap =>
                    Failed (error_message self c exc) (issued c snap w)
                  end
                else Ok (pass_result pass) w) as Hout
    by apply cmd_down_run.
  cbv zeta in Hout. fold pass in Hout. split; [|split].
  - rewrite Hout. destruct (negb (check_mode self) && pass.1);
      [by destruct (rt c (snapshot w))|by rewrite app_nil_r].
  - rewrite Hout. destruct (negb (check_mode self) && pass.1); [|done].
    by destruct (rt c (snapshot w)).
  - intros Hnone. assert (pass.1 = false) as Hp.
    { apply not_true_is_false. intros H.
      apply down_pass_changed in H as (service & c' & Hin & Hc').
      rewrite (Hnone service Hin) in Hc'. by apply not_elem_of_nil in Hc'. }
    split; [done|]. by rewrite Hout, Hp, andb_false_r.
Qed.

Lemma teardown_changed_iff_containers_witness :
  (∀ service, service ∈ services (project tearing_down) →
              containers ∅ service true = [])
  ∧ (down_pass tearing_down ∅).1 = false
  ∧ cmd_down broken tearing_down (fresh ∅)
    = Ok (pass_result (down_pass tearing_down ∅)) (fresh ∅).
Proof.
  split; [by intros service _|].
  apply (teardown_changed_iff_containers broken tearing_down (fresh ∅)).
  by intros service _.
Defined.

(** C6, as stated, fails: without diff output, a teardown of two running
    containers reports the change and lists no container. *)
Lemma teardown_lists_nothing_without_diff :
  changed_of <$> value_of (exec_module idle tearing_down_quietly
                             (fresh converged_snapshot))
  = Some (Some true)
  ∧ diff_of <$> value_of (exec_module idle tearing_down_quietly
                            (fresh converged_snapshot))
    = Some (Some ∅)
  ∧ trace (world_of (exec_module idle tearing_down_quietly
                       (fresh converged_snapshot)))
    = [ProjectDown None false false].
Proof. by vm_compute. Qed.

(** ** Scale *)

Lemma to_scale_true self snap service :
  to_scale self snap service = true ↔
  ∃ count, scale self !! service_name service = Some count
           ∧ Z.of_nat (length (containers snap service true)) ≠ count.
Proof.
  unfold to_scale. destruct (scale self !! service_name service) as [n|].
  - rewrite bool_decide_eq_true. split; [by exists n|].
    by intros (count & [= <-] & H).
  - split; [done|]. by intros (count & ? & _).
Qed.

Lemma cmd_scale_loop rt self w :
  cmd_scale rt self w =
  match foldM (scale_step rt self) (services (project self)) (false, ∅) w with
  | Ok result w' => Ok (pass_result result) w'
  | Failed msg w' => Failed msg w'
  end.
Proof. reflexivity. Qed.

Lemma scales_locally_idle : scales_locally idle.
Proof. by intros name count snap other _. Qed.

Lemma demo_names_NoDup : NoDup (service_name <$> services demo).
Proof.
  simpl. apply NoDup_cons. split; [|apply NoDup_singleton].
  intros H. by apply list_elem_of_singleton in H.
Qed.

(** C7 (amended): when scaling a service changes only that service and the
    services have distinct names, [cmd_scale] reports a change exactly when
    some service named in the scale map has a count other than its number
    of containers; the diff entry of a named service holds the signed
    difference under [scale] when the counts differ and diff output is on,
    and is empty otherwise; [service.scale] is called, outside check mode
    only, for named services whose counts differ, and the containers of a
    service that is not named stay as they were. *)
Theorem scale_changed_iff_count_differs rt self w :
  scales_locally rt →
  NoDup (service_name <$> services (project self)) →
  let pass := scale_pass self (snapshot w) in
  let out := cmd_scale rt self w in
  let current service :=
    Z.of_nat (length (containers (snapshot w) service true)) in
  (∀ r, value_of out = Some r →
        changed_of r = Some pass.1 ∧ diff_of r = Some pass.2)
  ∧ (pass.1 = true ↔
     ∃ service count, service ∈ services (project self)
                      ∧ scale self !! service_name service = Some count
                      ∧ current service ≠ count)
  ∧ (∀ service count, service ∈ services (project self) →
       scale self !! service_name service = Some count →
       ∃ m, pass.2 !! service_name service = Some m
            ∧ m !! "scale"
              = if diff self && bool_decide (current service ≠ count)
                then Some (DiffDelta (count - current service)) else None)
  ∧ (∃ calls,
       trace (world_of out) = trace w ++ calls
       ∧ ∀ c, c ∈ calls →
           ∃ service count,
             service ∈ services (project self)
             ∧ c = ServiceScale (service_name service) count
             ∧ scale self !! service_name service = Some count
             ∧ current service ≠ count
             ∧ check_mode self = false)
  ∧ (∀ k, scale self !! k = None →
          snapshot (world_of out) !! k = snapshot w !! k)
  ∧ (check_mode self = true → out = Ok (pass_result pass) w).
Proof.
  intros Hloc Hnd pass out current.
  destruct (scale_loop_local rt self (services (project self)) Hloc
              (false, ∅) w Hnd) as (Hres & Hsnap & calls & Htr & Hcalls).
  assert (world_of out
          = world_of (foldM (scale_step rt self) (services (project self))
                            (false, ∅) w)) as Hworld.
  { subst out. rewrite cmd_scale_loop. by destruct (foldM _ _ _ _). }
  split; [|split; [|split; [|split; [|split]]]].
  - intros r Hr. subst out. rewrite cmd_scale_loop in Hr.
    destruct (foldM _ _ _ _) as [result w'|] eqn:E; [|done].
    injection Hr as <-. by rewrite (Hres result eq_refl).
  - subst pass. rewrite scale_pass_changed. split.
    + intros (service & Hin & Hts).
      apply to_scale_true in Hts as (count & Hc & Hne). by exists service, count.
    + intros (service & count & Hin & Hc & Hne). exists service.
      split; [done|]. apply to_scale_true. by exists count.
  - intros service count Hin Hc. eexists. split.
    + apply scale_pass_entry; [done|]. by rewrite Hc.
    + unfold scale_entry. rewrite Hc. cbv zeta. fold (current service).
      destruct (diff self && bool_decide (current service ≠ count));
        [apply lookup_singleton_eq | apply lookup_empty].
  - exists calls. rewrite Hworld. split; [done|].
    intros c Hc. destruct (Hcalls c Hc) as (y & n & Hy & -> & Hn & Hty & Hcm).
    exists y, n. apply to_scale_true in Hty as (n' & Hn' & Hne).
    rewrite Hn in Hn'. injection Hn' as <-. done.
  - intros k Hk. rewrite Hworld. apply Hsnap.
    intros y Hy Hty Heq. apply to_scale_true in Hty as (n & Hn & _).
    by rewrite Heq, Hk in Hn.
  - intros Hcheck.
    destruct (quiet_cmd_scale rt self (or_introl Hcheck) w)
      as (w' & Heq & _ & Hw).
    subst out. by rewrite Heq, (Hw Hcheck).
Qed.

Lemma scale_changed_iff_count_differs_witness :
  (scales_locally idle
   ∧ NoDup (service_name <$> services (project scaling_up)))
  ∧ ∃ calls,
      trace (world_of (cmd_scale idle scaling_up (fresh converged_snapshot)))
      = [] ++ calls
      ∧ ∀ c, c ∈ calls →
          ∃ service count,
            service ∈ services (project scaling_up)
            ∧ c = ServiceScale (service_name service) count
            ∧ scale scaling_up !! service_name service = Some count
            ∧ Z.of_nat (length (containers converged_snapshot service true))
              ≠ count
            ∧ check_mode scaling_up = false.
Proof.
  split; [split; [apply scales_locally_idle|apply demo_names_NoDup]|].
  apply (scale_changed_iff_count_differs idle scaling_up
           (fresh converged_snapshot));
    [apply scales_locally_idle | apply demo_names_NoDup].
Defined.

(** C7, as stated, fails: a named service that already has the requested
    count gets an empty diff entry, not a difference of zero; and without
    diff output a service is scaled and reported changed with no difference
    recorded. *)
Lemma scale_records_no_delta :
  diff_of <$> value_of (cmd_scale idle scaling_same (fresh converged_snapshot))
  = Some (Some {[ "web" := ∅ ]})
  ∧ changed_of <$> value_of (cmd_scale idle scaling_up_quietly
                               (fresh converged_snapshot))
    = Some (Some true)
  ∧ diff_of <$> value_of (cmd_scale idle scaling_up_quietly
                            (fresh converged_snapshot))
    = Some (Some {[ "web" := ∅ ]})
  ∧ trace (world_of (cmd_scale idle scaling_up_quietly
                       (fresh converged_snapshot)))
    = [ServiceScale "web" 2].
Proof. by vm_compute. Qed.

Lemma scale_step_unknown rt self name acc service w :
  service_name service ≠ name →
  scale_step rt (with_scale (delete name (scale self)) self) acc service w
  = scale_step rt self acc service w.
Proof.
  intros Hne. unfold scale_step. cbn [scale with_scale diff check_mode].
  by rewrite lookup_delete_ne.
Qed.

(** C8 (amended): a scale map entry that names no service of the project is
    ignored: [cmd_scale] does exactly what it does without the entry. *)
Theorem scale_skips_unknown_service rt self name w :
  (∀ service, service ∈ services (project self) →
              service_name service ≠ name) →
  cmd_scale rt self w
  = cmd_scale rt (with_scale (delete name (scale self)) self) w.
Proof.
  intros Hnone. rewrite !cmd_scale_loop. cbn [project with_scale].
  assert (∀ l acc w,
            (∀ service, service ∈ l → service_name service ≠ name) →
            foldM (scale_step rt (with_scale (delete name (scale self)) self))
                  l acc w
            = foldM (scale_step rt self) l acc w) as Hloop.
  { induction l as [|x l IH]; intros acc w0 Hl; simpl; [done|].
    unfold mbind, M_bind.
    rewrite scale_step_unknown by apply Hl, list_elem_of_here.
    destruct (scale_step rt self acc x w0); [|done].
    apply IH. intros y Hy. by apply Hl, list_elem_of_further. }
  by rewrite Hloop.
Qed.

Lemma scale_skips_unknown_service_witness :
  (∀ service, service ∈ services (project scaling_ghost) →
              service_name service ≠ "ghost")
  ∧ cmd_scale broken scaling_ghost (fresh converged_snapshot)
    = cmd_scale broken
        (with_scale (delete "ghost" (scale scaling_ghost)) scaling_ghost)
        (fresh converged_snapshot).
Proof.
  assert (∀ service, service ∈ services (project scaling_ghost) →
                     service_name service ≠ "ghost") as Hnone.
  { intros service Hin.
    apply elem_of_cons in Hin as [->|Hin];
      [|apply list_elem_of_singleton in Hin as ->]; done. }
  split; [done|].
  by apply (scale_skips_unknown_service broken scaling_ghost "ghost"
              (fresh converged_snapshot)).
Defined.

(** C8, as stated, fails: with a scale map that names a service the project
    does not have, and a runtime on which any call would raise, the module
    returns unchanged, with an empty diff and no call issued. *)
Lemma scale_of_unknown_service_returns :
  world_of (exec_module broken scaling_ghost (fresh converged_snapshot))
  = fresh converged_snapshot
  ∧ changed_of <$> value_of (exec_module broken scaling_ghost
                               (fresh converged_snapshot))
    = Some (Some false)
  ∧ diff_of <$> value_of (exec_module broken scaling_ghost
                            (fresh converged_snapshot))
    = Some (Some ∅).
Proof. by vm_compute. Qed.

(** ** Failures *)

(** C9 (amended): a run of the module either returns, and then every call
    it issued returned, or it fails on the last call it issued: that call
    raised, nothing was issued after it, the run was not in check mode, and
    the message is the one of that call's handler, which names the project
    for up, down, stop and restart and the service for scale. *)
Theorem failure_stops_at_raising_call rt self w :
  match exec_module rt self w with
  | Ok _ w' =>
    ∃ calls, trace w' = trace w ++ calls
             ∧ completes rt (snapshot w) calls (snapshot w')
  | Failed msg w' =>
    check_mode self = false
    ∧ ∃ calls c exc snap,
        trace w' = trace w ++ calls ++ [c]
        ∧ completes rt (snapshot w) calls snap
        ∧ rt c snap = Raised exc (snapshot w')
        ∧ msg = error_message self c exc
  end.
Proof. apply traced_exec_module. Qed.

(** C9, as stated, fails: when [project.up] raises, the message names the
    project and none of its services. *)
Lemma up_failure_names_project :
  (∃ w', exec_module broken defaults (fresh ∅)
         = Failed "Error bring demo up - boom" w')
  ∧ occurs "demo" "Error bring demo up - boom" = true
  ∧ occurs "db" "Error bring demo up - boom" = false
  ∧ occurs "web" "Error bring demo up - boom" = false.
Proof.
  split; [|by vm_compute]. eexists. by vm_compute.
Qed.


(** ** The options of [project.up] *)

(** X1: the options of [project.up] never carry both [--force-recreate]
    and [--no-recreate]; [--no-recreate] is set exactly when [recreate] is
    off and recreation is not forced, and [--remove-orphans] is present
    only when [remove_orphans] is set. *)
Theorem up_options_never_contradict self :
  ¬ (up_options self !! "--force-recreate" = Some true
     ∧ up_options self !! "--no-recreate" = Some true)
  ∧ up_options self !! "--no-recreate"
    = Some (negb (recreate self) && negb (force_recreate self))
  ∧ up_options self !! "--force-recreate" = Some (force_recreate self)
  ∧ up_options self !! "--remove-orphans"
    = (if remove_orphans self then Some true else None).
Proof.
  unfold up_options.
  destruct (force_recreate self), (recreate self), (remove_orphans self),
    (build self); (split; [by intros [? ?]|done]).
Qed.

(** ** What every return of [cmd_up] carries *)

Lemma ensures_bind {A B : Type} (m : M A) (f : A → M B) P Q :
  ensures m P →
  (∀ a w1 b w2, P a w1 → f a w1 = Ok b w2 → Q b w2) →
  ensures (m ≫= f) Q.
Proof.
  intros Hm Hf w b w2. unfold mbind, M_bind.
  destruct (m w) as [a w1|] eqn:E; [|done].
  intros H. by apply (Hf a w1 b w2); [apply (Hm w)|].
Qed.

Lemma ensures_after {A B : Type} (m : M A) (f : A → M B) (P : A → Prop) Q :
  ensures m (fun a _ => P a) →
  (∀ a, P a → ensures (f a) Q) →
  ensures (m ≫= f) Q.
Proof.
  intros Hm Hf. apply (ensures_bind m f (fun a _ => P a)); [done|].
  intros a w1 b w2 HP. by apply Hf.
Qed.

Lemma ensures_then {A B : Type} (m : M A) (f : A → M B) Q :
  (∀ a, ensures (f a) Q) → ensures (m ≫= f) Q.
Proof.
  intros Hf. apply (ensures_bind m f (fun _ _ => True)); [done|].
  intros a w1 b w2 _. apply Hf.
Qed.

Lemma ensures_ret {A : Type} (a : A) (Q : A → World → Prop) :
  (∀ w, Q a w) → ensures (mret a) Q.
Proof. intros HQ w a' w' [= <- <-]. apply HQ. Qed.

(** A modifier of [cmd_up] returns the result updated with a pass. *)
Lemma ensures_modifier (b : bool) (cmd : M Result) (result : Result)
    (P : bool * Diff → Prop) (Q : Result → World → Prop) :
  ensures cmd (fun other _ => ∃ pass, other = pass_result pass ∧ P pass) →
  (∀ w, Q result w) →
  (∀ pass w, P pass → Q (update result (pass_result pass)) w) →
  ensures (if b then other ← cmd; mret (update result other)
           else mret result) Q.
Proof.
  intros Hcmd Hkeep Hupd. destruct b; [|by apply ensures_ret].
  eapply ensures_bind; [exact Hcmd|].
  intros other w1 r w2 (pass & -> & HP) [= <- <-]. by apply Hupd.
Qed.

Lemma ensures_cmd_stop rt self names :
  ensures (cmd_stop rt self names)
    (fun other w' =>
       ∃ snap, other = pass_result (targets_pass self "stop" false names snap)).
Proof.
  intros w r w'. rewrite cmd_stop_run. cbv zeta.
  destruct (negb _ && _); [destruct (rt _ _); [|done]|];
    intros [= <- <-]; by eexists.
Qed.

Lemma ensures_cmd_restart rt self names :
  ensures (cmd_restart rt self names)
    (fun other w' =>
       ∃ snap,
         other = pass_result (targets_pass self "restart" true names snap)).
Proof.
  intros w r w'. rewrite cmd_restart_run. cbv zeta.
  destruct (negb _ && _); [destruct (rt _ _); [|done]|];
    intros [= <- <-]; by eexists.
Qed.

(** The diff of the scale loop keeps what every entry it writes keeps. *)
Lemma ensures_scale_loop rt self (Good : Diff → Prop) :
  (∀ d snap service,
     is_Some (scale self !! service_name service) →
     service ∈ services (project self) →
     Good d → Good (<[service_name service := scale_entry self snap service]> d)) →
  ∀ l acc, l ⊆ services (project self) → Good acc.2 →
    ensures (foldM (scale_step rt self) l acc) (fun result _ => Good result.2).
Proof.
  intros Hstep. induction l as [|x l IH]; intros acc Hl Hacc; simpl.
  - by apply ensures_ret.
  - assert (x ∈ services (project self)) as Hx
      by apply Hl, list_elem_of_here.
    assert (l ⊆ services (project self)) as Hl'
      by (intros y Hy; by apply Hl, list_elem_of_further).
    intros w r w'. unfold mbind, M_bind. rewrite scale_step_run.
    destruct (scale self !! service_name x) as [count|] eqn:E.
    + cbv zeta.
      assert (Good (scale_pass_step self (snapshot w) acc x).2) as Hgood.
      { rewrite scale_pass_step_diff, E.
        rewrite bool_decide_eq_true_2 by (by eexists).
        apply Hstep; [by rewrite E|done..]. }
      destruct (to_scale self (snapshot w) x && negb (check_mode self)).
      * destruct (rt _ _); [|done]. by apply IH.
      * by apply IH.
    + by apply IH.
Qed.

Lemma ensures_cmd_scale rt self (Good : Diff → Prop) :
  (∀ d snap service,
     is_Some (scale self !! service_name service) →
     service ∈ services (project self) →
     Good d → Good (<[service_name service := scale_entry self snap service]> d)) →
  Good ∅ →
  ensures (cmd_scale rt self)
    (fun other _ => ∃ pass, other = pass_result pass ∧ Good pass.2).
Proof.
  intros Hstep Hempty w r w'. rewrite cmd_scale_loop.
  destruct (foldM _ _ _ _) as [result w1|] eqn:E; [|done].
  intros [= <- <-]. exists result. split; [done|].
  by apply (ensures_scale_loop rt self Good Hstep (services (project self))
              (false, ∅) (reflexivity _) Hempty w result w1).
Qed.

(** Whatever holds of the diff of every pass holds of the diff [cmd_up]
    returns. *)
Lemma ensures_cmd_up_diff rt self (Good : Diff → Prop) :
  (∀ snap, Good (up_pass self snap).2) →
  (∀ key with_stopped snap,
     Good (targets_pass self key with_stopped (service_names self) snap).2) →
  (∀ d snap service,
     is_Some (scale self !! service_name service) →
     service ∈ services (project self) →
     Good d → Good (<[service_name service := scale_entry self snap service]> d)) →
  Good ∅ →
  ensures (cmd_up rt self)
    (fun r _ => ∃ c d, changed_of r = Some c ∧ diff_of r = Some d ∧ Good d
                       ∧ is_Some (facts_of r)).
Proof.
  intros Hup Htargets Hscale Hempty. unfold cmd_up. cbv zeta.
  pose (Q := fun r : Result =>
               ∃ c d, changed_of r = Some c ∧ diff_of r = Some d ∧ Good d).
  assert (∀ (result : Result) pass (w : World),
            Good pass.2 → Q (update result (pass_result pass))) as Hupd.
  { intros result pass w Hg. exists pass.1, pass.2.
    by destruct (update_pass_result result pass) as (-> & -> & _). }
  apply ensures_then. intros snap. apply ensures_then. intros _.
  apply (ensures_after _ _ Q).
  { apply (ensures_modifier _ _ _ (fun pass => Good pass.2)).
    - intros w r w' H.
      destruct (ensures_cmd_stop rt self _ w r w' H) as (s & ->). by eexists.
    - intros w. exists (up_pass self snap).1, (up_pass self snap).2.
      by destruct (facts_insert_keeps
                     (result_dict (up_pass self snap).1 (up_pass self snap).2)
                     ∅) as [-> ->].
    - intros pass w. by apply Hupd. }
  intros result1 HQ1. apply (ensures_after _ _ Q).
  { apply (ensures_modifier _ _ _ (fun pass => Good pass.2)).
    - intros w r w' H.
      destruct (ensures_cmd_restart rt self _ w r w' H) as (s & ->).
      by eexists.
    - by intros w.
    - intros pass w. by apply Hupd. }
  intros result2 HQ2. apply (ensures_after _ _ Q).
  { apply (ensures_modifier _ _ _ (fun pass => Good pass.2)).
    - by apply ensures_cmd_scale.
    - by intros w.
    - intros pass w. by apply Hupd. }
  intros result3 (c & d & Hc & Hd & Hg) w3 r w'.
  unfold mbind, M_bind, get_snapshot, mret, M_ret. intros [= <- <-].
  exists c, d.
  destruct (facts_insert_keeps result3 (collect_facts self (snapshot w3)))
    as [-> ->].
  repeat split; [done..|].
  unfold facts_of. rewrite lookup_insert_eq. by eexists.
Qed.

Lemma up_step_diff self snap acc service :
  (up_step self snap acc service).2
  = if considered (service_names self) service && diff self
    then <[service_name service :=
             {[ action_name (action (planned self snap service)) :=
                  DiffContainers
                    (container_ref
                       <$> plan_containers (planned self snap service)) ]}]>
           acc.2
    else acc.2.
Proof.
  unfold up_step, planned.
  destruct (considered (service_names self) service); [|done].
  by destruct (diff self).
Qed.

Lemma up_pass_written self snap k m :
  (up_pass self snap).2 !! k = Some m →
  diff self = true
  ∧ ∃ service, service ∈ services (project self)
               ∧ considered (service_names self) service = true
               ∧ service_name service = k.
Proof.
  intros H. unfold up_pass in H.
  destruct (fold_left_written _ service_name
              (fun x => considered (service_names self) x && diff self) _
              (up_step_diff self snap) _ _ _ _ H)
    as [Hempty | (x & Hx & Hw & Hk & _)].
  - simpl in Hempty. by rewrite lookup_empty in Hempty.
  - apply andb_true_iff in Hw as [Hc Hd]. split; [done|]. by exists x.
Qed.

Lemma ensures_cmd_down rt self :
  ensures (cmd_down rt self)
    (fun r _ => ∃ snap, r = pass_result (down_pass self snap)).
Proof.
  intros w r w'. rewrite cmd_down_run. cbv zeta.
  destruct (negb _ && _); [destruct (rt _ _); [|done]|];
    intros [= <- <-]; by eexists.
Qed.

Lemma down_pass_written self snap k m :
  (down_pass self snap).2 !! k = Some m →
  diff self = true
  ∧ ∃ service, service ∈ services (project self) ∧ service_name service = k.
Proof.
  intros H. unfold down_pass in H.
  destruct (fold_left_written _ service_name (fun _ => diff self) _
              (down_step_diff self snap) _ _ _ _ H)
    as [Hempty | (x & Hx & Hw & Hk & _)].
  - simpl in Hempty. by rewrite lookup_empty in Hempty.
  - split; [done|]. by exists x.
Qed.

(** X2: a result the module returns always carries [changed] and [diff];
    it carries [ansible_facts] exactly when the state is [present]. *)
Theorem result_carries_changed_and_diff rt self w r w' :
  exec_module rt self w = Ok r w' →
  is_Some (changed_of r) ∧ is_Some (diff_of r)
  ∧ (is_Some (facts_of r) ↔ state self = present).
Proof.
  unfold exec_module. destruct (state self) eqn:Hstate; intros Hrun.
  - destruct (ensures_cmd_up_diff rt self (fun _ => True)
                ltac:(done) ltac:(done) ltac:(done) ltac:(done) w r w' Hrun)
      as (c & d & -> & -> & _ & Hf).
    split; [by eexists|]. split; [by eexists|]. by split.
  - destruct (ensures_cmd_down rt self w r w' Hrun) as (snap & ->).
    split; [by eexists|]. split; [by eexists|].
    split; [|done]. by intros [? [=]].
Qed.

Lemma result_carries_changed_and_diff_witness :
  exec_module idle tearing_down (fresh converged_snapshot)
  = Ok (pass_result (down_pass tearing_down converged_snapshot))
       (issued (ProjectDown None false false) converged_snapshot
               (fresh converged_snapshot))
  ∧ (is_Some (facts_of (pass_result
                          (down_pass tearing_down converged_snapshot)))
     ↔ state tearing_down = present).
Proof.
  split; [by vm_compute|].
  apply (result_carries_changed_and_diff idle tearing_down
           (fresh converged_snapshot) _
           (issued (ProjectDown None false false) converged_snapshot
                   (fresh converged_snapshot))).
  by vm_compute.
Defined.

(** X3: without diff output, the diff the module returns describes no
    container, deleted name or scale difference: every entry in it is an
    empty list. *)
Theorem diff_describes_nothing_without_diff rt self w r w' :
  diff self = false →
  exec_module rt self w = Ok r w' →
  ∃ d, diff_of r = Some d
       ∧ ∀ k m key e, d !! k = Some m → m !! key = Some e →
                      e = DiffContainers [].
Proof.
  intros Hdiff. unfold exec_module. destruct (state self); intros Hrun.
  - destruct (ensures_cmd_up_diff rt self
                (fun d => ∀ k m key e, d !! k = Some m → m !! key = Some e →
                                       e = DiffContainers [])) with
        (w := w) (a := r) (w' := w') as (c & d & _ & Hd & Hg & _);
      [| | | |done|by exists d].
    + intros snap k m key e Hk.
      apply up_pass_written in Hk as [? _]. congruence.
    + intros key ws snap k m key' e Hk He.
      apply targets_pass_written in Hk as (service & _ & _ & _ & ->).
      unfold target_entry in He. rewrite Hdiff in He.
      by apply lookup_singleton_Some in He as [_ <-].
    + intros d snap service _ _ Hg k m key e Hk He.
      destruct (decide (service_name service = k)) as [<-|Hne].
      * rewrite lookup_insert_eq in Hk. injection Hk as <-.
        unfold scale_entry in He. rewrite Hdiff in He.
        destruct (scale self !! service_name service);
          cbv zeta in He; cbn [andb] in He; by rewrite lookup_empty in He.
      * rewrite lookup_insert_ne in Hk by done. by eapply Hg.
    + intros k m key e Hk. by rewrite lookup_empty in Hk.
  - destruct (ensures_cmd_down rt self w r w' Hrun) as (snap & ->).
    eexists. split; [done|]. intros k m key e Hk.
    apply down_pass_written in Hk as [? _]. congruence.
Qed.

Lemma diff_describes_nothing_without_diff_witness :
  diff restarting_quietly = false
  ∧ ∃ d, diff_of (module_result restarting_quietly converged_snapshot)
         = Some d
         ∧ ∀ k m key e, d !! k = Some m → m !! key = Some e →
                        e = DiffContainers [].
Proof.
  split; [reflexivity|].
  apply (diff_describes_nothing_without_diff idle restarting_quietly
           (fresh converged_snapshot) _
           (issued (ProjectRestart []) converged_snapshot
                   (fresh converged_snapshot)));
    [reflexivity | by vm_compute].
Defined.

(** X4: every name in the diff the module returns is the name of a service
    of the project; when the state is [present] it is one of the requested
    services or one named in the scale map. *)
Theorem diff_names_requested_services rt self w r w' :
  exec_module rt self w = Ok r w' →
  ∃ d, diff_of r = Some d
       ∧ ∀ k, is_Some (d !! k) →
           ∃ service, service ∈ services (project self)
                      ∧ service_name service = k
                      ∧ (state self = absent
                         ∨ considered (service_names self) service = true
                         ∨ is_Some (scale self !! k)).
Proof.
  unfold exec_module. destruct (state self); intros Hrun.
  - destruct (ensures_cmd_up_diff rt self
                (fun d => ∀ k, is_Some (d !! k) →
                   ∃ service, service ∈ services (project self)
                              ∧ service_name service = k
                              ∧ (present = absent
                                 ∨ considered (service_names self) service
                                   = true
                                 ∨ is_Some (scale self !! k)))) with
        (w := w) (a := r) (w' := w') as (c & d & _ & Hd & Hg & _);
      [| | | |done|by exists d].
    + intros snap k [m Hk].
      apply up_pass_written in Hk as (_ & service & Hin & Hc & Hn).
      exists service. auto.
    + intros key ws snap k [m Hk].
      apply targets_pass_written in Hk as (service & Hin & Hc & Hn & _).
      exists service. auto.
    + intros d snap service Hs Hin Hg k Hk.
      destruct (decide (service_name service = k)) as [<-|Hne].
      * exists service. auto.
      * rewrite lookup_insert_ne in Hk by done. by apply Hg.
    + intros k [m Hk]. by rewrite lookup_empty in Hk.
  - destruct (ensures_cmd_down rt self w r w' Hrun) as (snap & ->).
    eexists. split; [done|]. intros k [m Hk].
    apply down_pass_written in Hk as (_ & service & Hin & Hn).
    exists service. auto.
Qed.

Lemma diff_names_requested_services_witness :
  ∃ d, diff_of (module_result (with_service_names ["web"] stopping)
                              converged_snapshot) = Some d
       ∧ ∀ k, is_Some (d !! k) →
           ∃ service, service ∈ services demo
                      ∧ service_name service = k
                      ∧ (present = absent
                         ∨ considered ["web"] service = true
                         ∨ is_Some ((∅ : gmap string Z) !! k)).
Proof.
  apply (diff_names_requested_services idle
           (with_service_names ["web"] stopping)
           (fresh converged_snapshot) _
           (issued (ProjectStop ["web"]) converged_snapshot
                   (fresh converged_snapshot))).
  by vm_compute.
Defined.

(** ** The facts *)

Section Inserts.

Context {A V : Type}.
Variable key : A → string.
Variable val : A → V.

(** A loop that writes one entry for each element. *)
Lemma fold_insert_written (l : list A) (m0 : gmap string V) k v :
  fold_left (fun m x => <[key x := val x]> m) l m0 !! k = Some v →
  m0 !! k = Some v ∨ ∃ x, x ∈ l ∧ key x = k ∧ v = val x.
Proof.
  revert m0. induction l as [|x l IH]; intros m0; simpl; [by left|].
  intros H. destruct (IH _ H) as [Hm | (y & Hy & Hk & Hv)].
  - destruct (decide (key x = k)) as [Heq|Hne].
    + rewrite <- Heq, lookup_insert_eq in Hm. injection Hm as <-.
      right. exists x. by split; [apply list_elem_of_here|].
    + rewrite lookup_insert_ne in Hm by done. by left.
  - right. exists y. by split; [apply list_elem_of_further|].
Qed.

Lemma fold_insert_some (l : list A) (m0 : gmap string V) x :
  x ∈ l →
  ∃ y, y ∈ l ∧ key y = key x
       ∧ fold_left (fun m x => <[key x := val x]> m) l m0 !! key x
         = Some (val y).
Proof.
  intros Hx. induction l as [|z l IH] using rev_ind.
  - by apply not_elem_of_nil in Hx.
  - rewrite fold_left_app. simpl.
    destruct (decide (key z = key x)) as [Heq|Hne].
    + exists z. split; [apply elem_of_app; right; apply list_elem_of_here|].
      split; [done|]. rewrite <- Heq. apply lookup_insert_eq.
    + assert (x ∈ l) as Hl.
      { apply elem_of_app in Hx as [Hx|Hx]; [done|].
        apply list_elem_of_singleton in Hx. by subst. }
      destruct (IH Hl) as (y & Hy & Hk & Hv). exists y.
      split; [apply elem_of_app; by left|]. split; [done|].
      by rewrite lookup_insert_ne.
Qed.

End Inserts.

Lemma ensures_cmd_up_facts rt self :
  ensures (cmd_up rt self)
    (fun r w' => facts_of r = Some (collect_facts self (snapshot w'))).
Proof.
  unfold cmd_up. cbv zeta.
  apply ensures_then. intros snap. apply ensures_then. intros _.
  apply ensures_then. intros result1. apply ensures_then. intros result2.
  apply ensures_then. intros result3. intros w r w'.
  unfold mbind, M_bind, get_snapshot, mret, M_ret. intros [= <- <-].
  unfold facts_of. by rewrite lookup_insert_eq.
Qed.

(** X5: the facts [cmd_up] returns are read after its last call: they have
    an entry for every service of the project, requested or not, and under
    it one for every container the service then has, stopped ones
    included, with the facts of a container of that name; and no entry for
    anything else. *)
Theorem facts_describe_final_containers rt self w r w' :
  cmd_up rt self w = Ok r w' →
  ∃ facts,
    facts_of r = Some facts
    ∧ (∀ service, service ∈ services (project self) →
         ∃ m, facts !! service_name service = Some m
              ∧ (∀ c, c ∈ containers (snapshot w') service true →
                   ∃ c', c' ∈ containers (snapshot w') service true
                         ∧ container_name c' = container_name c
                         ∧ m !! container_name c = Some (container_facts c'))
              ∧ (∀ n f, m !! n = Some f →
                   ∃ c, c ∈ containers (snapshot w') service true
                        ∧ container_name c = n ∧ f = container_facts c))
    ∧ (∀ k, is_Some (facts !! k) →
         ∃ service, service ∈ services (project self)
                    ∧ service_name service = k).
Proof.
  intros Hrun. exists (collect_facts self (snapshot w')).
  split; [by apply (ensures_cmd_up_facts rt self w)|].
  unfold collect_facts. split.
  - intros service Hin.
    destruct (fold_insert_some (V := gmap string Facts) service_name
                (fun service =>
                   fold_left
                     (fun m c => <[container_name c := container_facts c]> m)
                     (containers (snapshot w') service true) ∅)
                (services (project self)) ∅ service Hin)
      as (y & _ & Hname & ->).
    assert (containers (snapshot w') y true
            = containers (snapshot w') service true) as ->
      by (unfold containers; by rewrite Hname).
    eexists. split; [done|]. split.
    + intros c Hc.
      destruct (fold_insert_some container_name container_facts
                  (containers (snapshot w') service true) ∅ c Hc)
        as (c' & Hc' & Hn & Hv).
      by exists c'.
    + intros n f Hf.
      destruct (fold_insert_written container_name container_facts
                  _ _ _ _ Hf) as [Hempty|(c & Hc & Hn & ->)].
      * by rewrite lookup_empty in Hempty.
      * by exists c.
  - intros k [m Hk].
    destruct (fold_insert_written service_name _ _ _ _ _ Hk)
      as [Hempty|(service & Hin & Hn & _)].
    + by rewrite lookup_empty in Hempty.
    + by exists service.
Qed.

Lemma facts_describe_final_containers_witness :
  ∃ facts,
    facts_of (up_result stopping exited_snapshot) = Some facts
    ∧ (∀ service, service ∈ services (project stopping) →
         ∃ m, facts !! service_name service = Some m
              ∧ (∀ c, c ∈ containers exited_snapshot service true →
                   ∃ c', c' ∈ containers exited_snapshot service true
                         ∧ container_name c' = container_name c
                         ∧ m !! container_name c = Some (container_facts c'))
              ∧ (∀ n f, m !! n = Some f →
                   ∃ c, c ∈ containers exited_snapshot service true
                        ∧ container_name c = n ∧ f = container_facts c))
    ∧ (∀ k, is_Some (facts !! k) →
         ∃ service, service ∈ services (project stopping)
                    ∧ service_name service = k).
Proof.
  apply (facts_describe_final_containers idle stopping
           (fresh exited_snapshot)
           (up_result stopping exited_snapshot)
           {| snapshot := exited_snapshot;
              trace := [ProjectUp [] true (up_options stopping) true false] |}).
  by vm_compute.
Defined.

(** ** The order of the calls *)

Lemma emits_ret {A : Type} (a : A) (S : list Call → Prop) :
  S [] → emits (mret a) S.
Proof. intros HS w. exists []. split; [by rewrite app_nil_r|done]. Qed.

Lemma emits_bind {A B : Type} (m : M A) (f : A → M B) S1 S2 :
  emits m S1 → (∀ a, emits (f a) S2) → S2 [] →
  emits (m ≫= f) (fun calls => ∃ l1 l2, calls = l1 ++ l2 ∧ S1 l1 ∧ S2 l2).
Proof.
  intros Hm Hf Hnil w. unfold mbind, M_bind.
  destruct (Hm w) as (l1 & Htr & HS1).
  destruct (m w) as [a w1|msg w1]; simpl in Htr.
  - destruct (Hf a w1) as (l2 & Htr2 & HS2). exists (l1 ++ l2).
    split; [by rewrite Htr2, Htr, app_assoc|]. by exists l1, l2.
  - exists l1. split; [done|]. exists l1, []. by rewrite app_nil_r.
Qed.

Lemma emits_get_snapshot {B : Type} (f : Snapshot → M B) S :
  (∀ snap, emits (f snap) S) → emits (get_snapshot ≫= f) S.
Proof. intros Hf w. apply Hf. Qed.

Lemma emits_call rt (g : bool) (c : Call) (msg : string → string) :
  emits (if g then try_except rt c (fun exc => fail (msg exc)) else mret ())
        (fun calls => calls = [] ∨ (g = true ∧ calls = [c])).
Proof.
  destruct g; [|apply emits_ret; by left].
  intros w. unfold try_except, fail. exists [c].
  split; [by destruct (rt c (snapshot w))|by right].
Qed.

Lemma emits_cmd_stop rt self names :
  emits (cmd_stop rt self names)
        (fun calls => calls = [] ∨ calls = [ProjectStop names]).
Proof.
  intros w. rewrite cmd_stop_run. cbv zeta.
  destruct (negb _ && _).
  - exists [ProjectStop names]. split; [by destruct (rt _ _)|by right].
  - exists []. split; [by rewrite app_nil_r|by left].
Qed.

Lemma emits_cmd_restart rt self names :
  emits (cmd_restart rt self names)
        (fun calls => calls = [] ∨ calls = [ProjectRestart names]).
Proof.
  intros w. rewrite cmd_restart_run. cbv zeta.
  destruct (negb _ && _).
  - exists [ProjectRestart names]. split; [by destruct (rt _ _)|by right].
  - exists []. split; [by rewrite app_nil_r|by left].
Qed.

Lemma emits_scale_loop rt self l acc :
  emits (foldM (scale_step rt self) l acc)
        (fun calls =>
           ∃ scaled, scaled `sublist_of` l
                     ∧ calls = scale_call self <$> scaled
                     ∧ ∀ s, s ∈ scaled →
                            is_Some (scale self !! service_name s)).
Proof.
  revert acc. induction l as [|x l IH]; intros acc w; simpl.
  - exists []. split; [by rewrite app_nil_r|]. exists [].
    split; [done|]. split; [done|]. intros s Hs.
    by apply not_elem_of_nil in Hs.
  - unfold mbind, M_bind. rewrite scale_step_run.
    assert (∀ acc' w1 (pre : list Call),
              (pre = [] ∨ (is_Some (scale self !! service_name x)
                           ∧ pre = [scale_call self x])) →
              trace w1 = trace w ++ pre →
              ∃ calls,
                trace (world_of (foldM (scale_step rt self) l acc' w1))
                = trace w ++ calls
                ∧ ∃ scaled, scaled `sublist_of` x :: l
                            ∧ calls = scale_call self <$> scaled
                            ∧ ∀ s, s ∈ scaled →
                                   is_Some (scale self !! service_name s))
      as Hrest.
    { intros acc' w1 pre Hpre Htr.
      destruct (IH acc' w1) as (calls & Htr' & scaled & Hsub & -> & Hall).
      exists (pre ++ (scale_call self <$> scaled)).
      split; [by rewrite Htr', Htr, app_assoc|].
      destruct Hpre as [->|[Hs ->]].
      - exists scaled. split; [by apply sublist_cons|done].
      - exists (x :: scaled). split; [by apply sublist_skip|].
        split; [done|]. intros s Hin.
        apply elem_of_cons in Hin as [->|Hin]; [done|by apply Hall]. }
    destruct (scale self !! service_name x) as [count|] eqn:E.
    + cbv zeta.
      destruct (to_scale self (snapshot w) x && negb (check_mode self)).
      * destruct (rt _ _) as [snap|exc snap].
        -- apply (Hrest _ _ [scale_call self x]); [right|].
           ++ split; [by eexists|done].
           ++ unfold scale_call. by rewrite E.
        -- simpl. exists [scale_call self x].
           split; [unfold scale_call; by rewrite E|].
           exists [x]. split; [apply sublist_skip, sublist_nil_l|].
           split; [done|]. intros s Hs.
           apply list_elem_of_singleton in Hs as ->. rewrite E. by eexists.
      * apply (Hrest _ _ []); [by left|by rewrite app_nil_r].
    + apply (Hrest _ _ []); [by left|by rewrite app_nil_r].
Qed.

Lemma emits_modifier (b : bool) (cmd : M Result) (result : Result) S :
  emits cmd S →
  emits (if b then other ← cmd; mret (update result other) else mret result)
        (fun calls => calls = [] ∨ (b = true ∧ S calls)).
Proof.
  intros Hcmd. destruct b; [|apply emits_ret; by left].
  intros w. unfold mbind, M_bind. destruct (Hcmd w) as (calls & Htr & HS).
  exists calls. split; [|by right]. by destruct (cmd w).
Qed.

(** X6: the calls of [cmd_up] come in a fixed order: [project.up] at most
    once, then [project.stop] at most once and only with [stopped], then
    [project.restart] at most once and only with [restarted], then
    [service.scale] for services named in the scale map, each at most once
    and in the order of the project; this holds of failing runs too. *)
Theorem cmd_up_call_order rt self w :
  ∃ ups stops restarts scaled,
    trace (world_of (cmd_up rt self w))
    = trace w ++ ups ++ stops ++ restarts ++ (scale_call self <$> scaled)
    ∧ (ups = [] ∨ ups = [ProjectUp (service_names self) (dependencies self)
                                   (up_options self) true
                                   (remove_orphans self)])
    ∧ (stops = []
       ∨ (stopped self = true ∧ stops = [ProjectStop (service_names self)]))
    ∧ (restarts = []
       ∨ (restarted self = true
          ∧ restarts = [ProjectRestart (service_names self)]))
    ∧ scaled `sublist_of` services (project self)
    ∧ ∀ s, s ∈ scaled → is_Some (scale self !! service_name s).
Proof.
  pose (Sscale := fun calls : list Call =>
          ∃ scaled, scaled `sublist_of` services (project self)
                    ∧ calls = scale_call self <$> scaled
                    ∧ ∀ s, s ∈ scaled →
                           is_Some (scale self !! service_name s)).
  assert (Sscale []) as Hscale_nil.
  { exists []. split; [apply sublist_nil_l|]. split; [done|].
    intros s Hs. by apply not_elem_of_nil in Hs. }
  assert (emits (cmd_scale rt self) Sscale) as Hscale.
  { intros w0. rewrite cmd_scale_loop.
    destruct (emits_scale_loop rt self (services (project self)) (false, ∅)
                w0) as (calls & Htr & HS).
    exists calls. split; [|done]. by destruct (foldM _ _ _ _). }
  assert (∀ snap,
      emits
        (_ ← (if negb (check_mode self) && (up_pass self snap).1
              then try_except rt
                     (ProjectUp (service_names self) (dependencies self)
                                (up_options self) true (remove_orphans self))
                     (fun exc =>
                        fail ("Error bring " +:+ project_name (project self)
                              +:+ " up - " +:+ exc))
              else mret ());
         result ← (if stopped self
                   then other ← cmd_stop rt self (service_names self);
                        mret (update
                                (<["ansible_facts" := VFacts ∅]>
                                   (result_dict (up_pass self snap).1
                                                (up_pass self snap).2)) other)
                   else mret (<["ansible_facts" := VFacts ∅]>
                                (result_dict (up_pass self snap).1
                                             (up_pass self snap).2)));
         result0 ← (if restarted self
                    then other ← cmd_restart rt self (service_names self);
                         mret (update result other)
                    else mret result);
         result1 ← (if bool_decide (scale self ≠ ∅)
                    then other ← cmd_scale rt self;
                         mret (update result0 other)
                    else mret result0);
         snap' ← get_snapshot;
         mret (<["ansible_facts" := VFacts (collect_facts self snap')]>
                 result1))
        (fun calls =>
           ∃ l1 l2, calls = l1 ++ l2
             ∧ (l1 = [] ∨ (negb (check_mode self) && (up_pass self snap).1
                           = true
                           ∧ l1 = [ProjectUp (service_names self)
                                     (dependencies self) (up_options self)
                                     true (remove_orphans self)]))
             ∧ ∃ l3 l4, l2 = l3 ++ l4
                 ∧ (l3 = [] ∨ (stopped self = true
                               ∧ (l3 = [] ∨ l3 = [ProjectStop
                                                    (service_names self)])))
                 ∧ ∃ l5 l6, l4 = l5 ++ l6
                     ∧ (l5 = [] ∨ (restarted self = true
                                   ∧ (l5 = [] ∨ l5 = [ProjectRestart
                                                 (service_names self)])))
                     ∧ ∃ l7 l8, l6 = l7 ++ l8
                         ∧ (l7 = [] ∨ (bool_decide (scale self ≠ ∅) = true
                                       ∧ Sscale l7))
                         ∧ l8 = [])) as Hbody.
  { intros snap.
    apply emits_bind; [apply emits_call| |].
    - intros _. apply emits_bind;
        [apply emits_modifier, emits_cmd_stop| |].
      + intros result1. apply emits_bind;
          [apply emits_modifier, emits_cmd_restart| |].
        * intros result2. apply emits_bind;
            [apply emits_modifier, Hscale| |done].
          intros result3. apply emits_get_snapshot. intros snap'.
          by apply emits_ret.
        * exists [], []. split; [done|]. split; [by left|done].
      + exists [], []. split; [done|]. split; [by left|].
        exists [], []. split; [done|]. split; [by left|done].
    - exists [], []. split; [done|]. split; [by left|].
      exists [], []. split; [done|]. split; [by left|].
      exists [], []. split; [done|]. split; [by left|done]. }
  destruct (Hbody (snapshot w) w)
    as (calls & Htr & l1 & l2 & -> & H1 & l3 & l4 & -> & H3
        & l5 & l6 & -> & H5 & l7 & l8 & -> & H7 & ->).
  assert (Sscale l7) as (scaled & Hsub & -> & Hall).
  { destruct H7 as [->|[_ H]]; done. }
  exists l1, l3, l5, scaled. rewrite app_nil_r in Htr.
  split; [exact Htr|]. split; [destruct H1 as [->|[_ ->]]; auto|].
  split; [destruct H3 as [->|[? [->| ->]]]; auto|].
  split; [destruct H5 as [->|[? [->| ->]]]; auto|].
  done.
Qed.

(** ** Runs with nothing to do *)

Lemma scale_loop_nothing rt self l :
  ∀ acc w,
    (∀ x, x ∈ l → to_scale self (snapshot w) x = false) →
    foldM (scale_step rt self) l acc w
    = Ok (fold_left (scale_pass_step self (snapshot w)) l acc) w.
Proof.
  induction l as [|x l IH]; intros acc w Hnone; simpl; [done|].
  unfold mbind, M_bind. rewrite scale_step_run.
  assert (∀ y, y ∈ l → to_scale self (snapshot w) y = false) as Hl
    by (intros y Hy; by apply Hnone, list_elem_of_further).
  destruct (scale self !! service_name x) as [count|] eqn:E.
  - cbv zeta. rewrite (Hnone x) by apply list_elem_of_here.
    cbn [andb]. by apply IH.
  - rewrite (scale_pass_step_skip _ _ _ _ E). by apply IH.
Qed.

Lemma scale_pass_unchanged self snap :
  (scale_pass self snap).1 = false →
  ∀ x, x ∈ services (project self) → to_scale self snap x = false.
Proof.
  intros Hp x Hx. apply not_true_is_false. intros Hts.
  assert ((scale_pass self snap).1 = true) as H
    by (apply scale_pass_changed; by exists x).
  congruence.
Qed.

Lemma cmd_scale_nothing rt self w :
  (scale_pass self (snapshot w)).1 = false →
  cmd_scale rt self w = Ok (pass_result (scale_pass self (snapshot w))) w.
Proof.
  intros Hp. rewrite cmd_scale_loop.
  by rewrite scale_loop_nothing by by apply scale_pass_unchanged.
Qed.

Lemma bind_ok {A B : Type} (m : M A) (f : A → M B) w a w1 :
  m w = Ok a w1 → (m ≫= f) w = f a w1.
Proof. intros H. unfold mbind, M_bind. by rewrite H. Qed.

Lemma call_off rt (g b : bool) (c : Call) (handler : string → M unit) w :
  b = false →
  (if g && b then try_except rt c handler else mret ()) w = Ok () w.
Proof. intros ->. by rewrite andb_false_r. Qed.

(** A modifier that is off, or whose command returns without a call. *)
Lemma modifier_ok (b : bool) (cmd : M Result) (result other : Result) w :
  (b = true → cmd w = Ok other w) →
  (if b then other ← cmd; mret (update result other) else mret result) w
  = Ok (if b then update result other else result) w.
Proof.
  intros H. destruct b; [|done]. by rewrite (bind_ok _ _ _ _ _ (H eq_refl)).
Qed.

Lemma cmd_stop_nothing rt self names w :
  (targets_pass self "stop" false names (snapshot w)).1 = false →
  cmd_stop rt self names w
  = Ok (pass_result (targets_pass self "stop" false names (snapshot w))) w.
Proof.
  intros H. rewrite cmd_stop_run. cbv zeta. by rewrite H, andb_false_r.
Qed.

Lemma cmd_restart_nothing rt self names w :
  (targets_pass self "restart" true names (snapshot w)).1 = false →
  cmd_restart rt self names w
  = Ok (pass_result (targets_pass self "restart" true names (snapshot w))) w.
Proof.
  intros H. rewrite cmd_restart_run. cbv zeta. by rewrite H, andb_false_r.
Qed.

(** When no pass finds a change, [cmd_up] returns without a call. *)
Lemma cmd_up_nothing rt self w :
  (up_pass self (snapshot w)).1 = false →
  (stopped self = true →
   (targets_pass self "stop" false (service_names self) (snapshot w)).1
   = false) →
  (restarted self = true →
   (targets_pass self "restart" true (service_names self) (snapshot w)).1
   = false) →
  (scale self ≠ ∅ → (scale_pass self (snapshot w)).1 = false) →
  cmd_up rt self w = Ok (up_result self (snapshot w)) w.
Proof.
  intros Hup Hstop Hrestart Hscale. unfold cmd_up. cbv zeta.
  rewrite (bind_ok get_snapshot _ w (snapshot w) w eq_refl).
  rewrite (bind_ok _ _ w () w (call_off rt _ _ _ _ w Hup)).
  rewrite (bind_ok _ _ w _ w
             (modifier_ok (stopped self) _ _ _ w
                (fun H => cmd_stop_nothing rt self _ w (Hstop H)))).
  rewrite (bind_ok _ _ w _ w
             (modifier_ok (restarted self) _ _ _ w
                (fun H => cmd_restart_nothing rt self _ w (Hrestart H)))).
  rewrite (bind_ok _ _ w _ w
             (modifier_ok (bool_decide (scale self ≠ ∅)) _ _ _ w
                (fun H => cmd_scale_nothing rt self w
                            (Hscale (bool_decide_eq_true_1 _ H))))).
  by rewrite (bind_ok get_snapshot _ w (snapshot w) w eq_refl).
Qed.

Lemma changed_of_facts_insert (result : Result) f :
  changed_of (<["ansible_facts" := VFacts f]> result) = changed_of result.
Proof. apply facts_insert_keeps. Qed.

Lemma diff_of_facts_insert (result : Result) f :
  diff_of (<["ansible_facts" := VFacts f]> result) = diff_of result.
Proof. apply facts_insert_keeps. Qed.

Lemma changed_of_update (result : Result) pass :
  changed_of (update result (pass_result pass)) = Some pass.1.
Proof. apply update_pass_result. Qed.

Lemma diff_of_update (result : Result) pass :
  diff_of (update result (pass_result pass)) = Some pass.2.
Proof. apply update_pass_result. Qed.

(** The result of [cmd_up] on a snapshot has the [changed] and [diff] of
    the last pass. *)
Lemma up_result_last_pass self snap :
  changed_of (up_result self snap) = Some (last_pass self snap).1
  ∧ diff_of (up_result self snap) = Some (last_pass self snap).2.
Proof.
  unfold up_result, last_pass. cbv zeta.
  rewrite changed_of_facts_insert, diff_of_facts_insert.
  destruct (bool_decide (scale self ≠ ∅));
    [by rewrite changed_of_update, diff_of_update|].
  destruct (restarted self);
    [by rewrite changed_of_update, diff_of_update|].
  destruct (stopped self);
    [by rewrite changed_of_update, diff_of_update|].
  by rewrite changed_of_facts_insert, diff_of_facts_insert.
Qed.

(** X7: when neither the convergence pass nor any modifier that is set
    finds a change, [cmd_up] issues no call and cannot fail, in execute
    mode as in check mode and whatever the runtime would do: it returns
    what it computed and leaves the world as it found it. *)
Theorem nothing_to_do_touches_nothing rt self w :
  (up_pass self (snapshot w)).1 = false →
  (stopped self = true →
   (targets_pass self "stop" false (service_names self) (snapshot w)).1
   = false) →
  (restarted self = true →
   (targets_pass self "restart" true (service_names self) (snapshot w)).1
   = false) →
  (scale self ≠ ∅ → (scale_pass self (snapshot w)).1 = false) →
  cmd_up rt self w = Ok (up_result self (snapshot w)) w
  ∧ changed_of (up_result self (snapshot w)) = Some false.
Proof.
  intros Hup Hstop Hrestart Hscale. split; [by apply cmd_up_nothing|].
  rewrite (proj1 (up_result_last_pass self (snapshot w))). f_equal.
  unfold last_pass.
  destruct (bool_decide (scale self ≠ ∅)) eqn:E.
  { apply bool_decide_eq_true in E. auto. }
  destruct (restarted self); [auto|]. destruct (stopped self); auto.
Qed.

Lemma nothing_to_do_touches_nothing_witness :
  ((up_pass filtering_ghost converged_snapshot).1 = false
   ∧ (targets_pass filtering_ghost "stop" false
                   (service_names filtering_ghost) converged_snapshot).1
     = false
   ∧ (targets_pass filtering_ghost "restart" true
                   (service_names filtering_ghost) converged_snapshot).1
     = false)
  ∧ cmd_up broken filtering_ghost (fresh converged_snapshot)
    = Ok (up_result filtering_ghost converged_snapshot)
         (fresh converged_snapshot).
Proof.
  split; [by vm_compute|].
  apply (nothing_to_do_touches_nothing broken filtering_ghost
           (fresh converged_snapshot)); by vm_compute.
Defined.

(** X8: in check mode, and on a runtime whose calls change no container,
    the [changed] and [diff] that [cmd_up] returns are those of the last
    modifier that is set, in the order scale, restarted, stopped, and those
    of the convergence pass when none is: each later result replaces the
    earlier ones. *)
Theorem last_modifier_decides rt self w :
  check_mode self = true ∨ inert rt →
  ∃ r w', cmd_up rt self w = Ok r w'
          ∧ snapshot w' = snapshot w
          ∧ changed_of r = Some (last_pass self (snapshot w)).1
          ∧ diff_of r = Some (last_pass self (snapshot w)).2.
Proof.
  intros Hq. destruct (quiet_cmd_up rt self Hq w) as (w' & Hrun & Hs & _).
  exists (up_result self (snapshot w)), w'.
  split; [done|]. split; [done|]. apply up_result_last_pass.
Qed.

Lemma last_modifier_decides_witness :
  (check_mode (with_check_mode true restarting_scaled) = true ∨ inert broken)
  ∧ ∃ r w', cmd_up broken (with_check_mode true restarting_scaled)
                   (fresh converged_snapshot) = Ok r w'
            ∧ snapshot w' = converged_snapshot
            ∧ changed_of r
              = Some (last_pass (with_check_mode true restarting_scaled)
                                converged_snapshot).1
            ∧ diff_of r
              = Some (last_pass (with_check_mode true restarting_scaled)
                                converged_snapshot).2.
Proof.
  split; [by left|].
  apply (last_modifier_decides broken (with_check_mode true restarting_scaled)
           (fresh converged_snapshot)).
  by left.
Defined.

(** ** A filter that names no service *)

Lemma fold_left_skip {A B : Type} (step : B → A → B) (l : list A) (acc : B) :
  (∀ b x, x ∈ l → step b x = b) → fold_left step l acc = acc.
Proof.
  revert acc. induction l as [|x l IH]; intros acc H; simpl; [done|].
  rewrite H by apply list_elem_of_here.
  apply IH. intros b y Hy. by apply H, list_elem_of_further.
Qed.

Lemma passes_of_unknown_filter self snap :
  (∀ service, service ∈ services (project self) →
              considered (service_names self) service = false) →
  up_pass self snap = (false, ∅)
  ∧ ∀ key with_stopped,
      targets_pass self key with_stopped (service_names self) snap
      = (false, ∅).
Proof.
  intros Hnone. split; [|intros key with_stopped].
  - unfold up_pass. apply fold_left_skip. intros b x Hx.
    unfold up_step. by rewrite (Hnone x Hx).
  - unfold targets_pass. apply fold_left_skip. intros b x Hx.
    unfold target_step. by rewrite (Hnone x Hx).
Qed.

(** X9: a [services] filter that is not empty and names no service of the
    project makes [cmd_up] do nothing, also with [stopped] or [restarted]
    set: no call is issued, whatever the runtime, and the result is
    unchanged with an empty diff. *)
Theorem unknown_filter_does_nothing rt self w :
  service_names self ≠ [] →
  (∀ service, service ∈ services (project self) →
              service_name service ∉ service_names self) →
  scale self = ∅ →
  cmd_up rt self w = Ok (up_result self (snapshot w)) w
  ∧ changed_of (up_result self (snapshot w)) = Some false
  ∧ diff_of (up_result self (snapshot w)) = Some ∅.
Proof.
  intros Hne Hnone Hscale.
  assert (∀ service, service ∈ services (project self) →
                     considered (service_names self) service = false) as Hc.
  { intros service Hin. unfold considered.
    rewrite bool_decide_eq_false_2 by done.
    by rewrite bool_decide_eq_false_2 by by apply Hnone. }
  destruct (passes_of_unknown_filter self (snapshot w) Hc) as [Hup Ht].
  assert (last_pass self (snapshot w) = (false, ∅)) as Hlast.
  { unfold last_pass. rewrite Hscale.
    rewrite (bool_decide_eq_false_2 (∅ ≠ ∅)) by (by intros []).
    destruct (restarted self); [apply Ht|].
    destruct (stopped self); [apply Ht|apply Hup]. }
  split.
  - apply cmd_up_nothing.
    + by rewrite Hup.
    + intros _. by rewrite Ht.
    + intros _. by rewrite Ht.
    + by intros [].
  - destruct (up_result_last_pass self (snapshot w)) as [-> ->].
    by rewrite Hlast.
Qed.

Lemma unknown_filter_does_nothing_witness :
  (service_names filtering_ghost ≠ []
   ∧ (∀ service, service ∈ services (project filtering_ghost) →
                 service_name service ∉ service_names filtering_ghost)
   ∧ scale filtering_ghost = ∅)
  ∧ cmd_up broken filtering_ghost (fresh converged_snapshot)
    = Ok (up_result filtering_ghost converged_snapshot)
         (fresh converged_snapshot)
  ∧ changed_of (up_result filtering_ghost converged_snapshot) = Some false
  ∧ diff_of (up_result filtering_ghost converged_snapshot) = Some ∅.
Proof.
  assert (∀ service, service ∈ services (project filtering_ghost) →
                     service_name service ∉ service_names filtering_ghost)
    as Hnone.
  { intros service Hin Hg. apply list_elem_of_singleton in Hg.
    apply elem_of_cons in Hin as [->|Hin];
      [|apply list_elem_of_singleton in Hin as ->]; done. }
  split; [by repeat split|].
  by apply (unknown_filter_does_nothing broken filtering_ghost
              (fresh converged_snapshot)).
Defined.

(** ** Scaling twice *)

Lemma to_scale_exact self snap service count :
  scale self !! service_name service = Some count →
  Z.of_nat (length (default [] (snap !! service_name service))) = count →
  to_scale self snap service = false.
Proof.
  intros Hc Hlen. unfold to_scale, containers. rewrite Hc.
  by apply bool_decide_eq_false_2; intros [].
Qed.

(** After the loop has returned in execute mode, on a runtime that scales
    exactly and locally, no service is left to scale. *)
Lemma scale_loop_exact rt self l :
  scales_locally rt → scales_exactly rt → check_mode self = false →
  ∀ acc w result w',
    NoDup (service_name <$> l) →
    foldM (scale_step rt self) l acc w = Ok result w' →
    ∀ y, y ∈ l → to_scale self (snapshot w') y = false.
Proof.
  intros Hloc Hexact Hcheck.
  induction l as [|x l IH]; intros acc w result w' Hnd Hrun y Hy;
    [by apply not_elem_of_nil in Hy|].
  rewrite fmap_cons in Hnd. apply NoDup_cons in Hnd as [Hx Hnd].
  assert (∀ z, z ∈ l → service_name z ≠ service_name x) as Hother.
  { intros z Hz Heq. apply Hx. rewrite <- Heq. by apply list_elem_of_fmap_2. }
  simpl in Hrun. unfold mbind, M_bind in Hrun.
  rewrite scale_step_run in Hrun.
  (* the rest of the loop leaves the containers of [x] alone *)
  assert (∀ acc1 w1,
            foldM (scale_step rt self) l acc1 w1 = Ok result w' →
            snapshot w' !! service_name x = snapshot w1 !! service_name x)
    as Hkeep.
  { intros acc1 w1 H1.
    destruct (scale_loop_local rt self l Hloc acc1 w1 Hnd) as (_ & Hsnap & _).
    rewrite H1 in Hsnap. simpl in Hsnap. apply Hsnap.
    intros z Hz _. by apply Hother. }
  apply elem_of_cons in Hy as [->|Hy].
  - destruct (scale self !! service_name x) as [count|] eqn:E.
    + cbv zeta in Hrun. rewrite Hcheck in Hrun. cbn [negb] in Hrun.
      rewrite andb_true_r in Hrun.
      destruct (to_scale self (snapshot w) x) eqn:Hts.
      * pose proof (Hexact (service_name x) count (snapshot w)) as Hex.
        destruct (rt _ _) as [snap|exc snap] eqn:Hrt; [|done].
        apply (to_scale_exact self _ _ count E).
        by rewrite (Hkeep _ _ Hrun).
      * rewrite <- Hts. apply to_scale_agree. by apply (Hkeep _ _ Hrun).
    + unfold to_scale. by rewrite E.
  - destruct (scale self !! service_name x) as [count|] eqn:E.
    + cbv zeta in Hrun.
      destruct (to_scale self (snapshot w) x && negb (check_mode self)).
      * destruct (rt _ _) as [snap|exc snap]; [|done].
        by apply (IH _ _ _ _ Hnd Hrun).
      * by apply (IH _ _ _ _ Hnd Hrun).
    + by apply (IH _ _ _ _ Hnd Hrun).
Qed.

(** X10: on a runtime where [service.scale] leaves the service with the
    requested number of containers and other services as they are, a
    [cmd_scale] that has returned in execute mode leaves nothing to scale:
    run again, it issues no call and reports no change. *)
Theorem scale_again_changes_nothing rt self w r w' :
  scales_locally rt → scales_exactly rt →
  NoDup (service_name <$> services (project self)) →
  check_mode self = false →
  cmd_scale rt self w = Ok r w' →
  cmd_scale rt self w' = Ok (pass_result (scale_pass self (snapshot w'))) w'
  ∧ (scale_pass self (snapshot w')).1 = false.
Proof.
  intros Hloc Hexact Hnd Hcheck Hrun. rewrite cmd_scale_loop in Hrun.
  destruct (foldM _ _ _ _) as [result w1|] eqn:E; [|done].
  injection Hrun as <- <-.
  pose proof (scale_loop_exact rt self _ Hloc Hexact Hcheck _ _ _ _ Hnd E)
    as Hnone.
  assert ((scale_pass self (snapshot w1)).1 = false) as Hp.
  { apply not_true_is_false. intros H.
    apply scale_pass_changed in H as (y & Hy & Hts).
    by rewrite (Hnone y Hy) in Hts. }
  split; [by apply cmd_scale_nothing|done].
Qed.

Lemma scales_locally_scaling : scales_locally scaling.
Proof.
  intros name count snap other Hne. unfold scaling.
  destruct (bool_decide (0 ≤ count)); [|done].
  by rewrite lookup_insert_ne.
Qed.

Lemma scales_exactly_scaling : scales_exactly scaling.
Proof.
  intros name count snap. unfold scaling.
  destruct (bool_decide (0 ≤ count)) eqn:E; [|done].
  apply bool_decide_eq_true in E.
  rewrite lookup_insert_eq. simpl. rewrite length_replicate. lia.
Qed.

Lemma scale_again_changes_nothing_witness :
  (scales_locally scaling ∧ scales_exactly scaling
   ∧ NoDup (service_name <$> services (project scaling_up))
   ∧ check_mode scaling_up = false
   ∧ cmd_scale scaling scaling_up (fresh converged_snapshot)
     = Ok (pass_result (scale_pass scaling_up converged_snapshot))
          scaled_world)
  ∧ cmd_scale scaling scaling_up scaled_world
    = Ok (pass_result (scale_pass scaling_up (snapshot scaled_world)))
         scaled_world
  ∧ (scale_pass scaling_up (snapshot scaled_world)).1 = false.
Proof.
  assert (cmd_scale scaling scaling_up (fresh converged_snapshot)
          = Ok (pass_result (scale_pass scaling_up converged_snapshot))
               scaled_world) as Hrun by (by vm_compute).
  split.
  { split; [apply scales_locally_scaling|].
    split; [apply scales_exactly_scaling|].
    split; [apply demo_names_NoDup|]. split; [reflexivity|exact Hrun]. }
  exact (scale_again_changes_nothing scaling scaling_up
           (fresh converged_snapshot)
           (pass_result (scale_pass scaling_up converged_snapshot))
           scaled_world
           scales_locally_scaling scales_exactly_scaling
           demo_names_NoDup eq_refl Hrun).
Defined.

(** ** The options handed to compose *)

Lemma AUTH_PARAM_MAPPING_lookup key option :
  AUTH_PARAM_MAPPING !! key = Some option →
  (key, option) ∈ [ ("docker_host", "--host"); ("tls", "--tls");
                    ("cacert_path", "--tlscacert");
                    ("cert_path", "--tlscert"); ("key_path", "--tlskey");
                    ("tls_verify", "--tlsverify") ].
Proof.
  intros H. unfold AUTH_PARAM_MAPPING in H.
  repeat (apply lookup_insert_Some in H as [[<- <-]|[_ H]];
          [set_solver|]).
  apply lookup_singleton_Some in H as [<- <-]. set_solver.
Qed.

Lemma AUTH_PARAM_MAPPING_option key option :
  AUTH_PARAM_MAPPING !! key = Some option →
  option ≠ "" ∧ option ≠ "--file" ∧ option ≠ "--project-name"
  ∧ option ≠ "--skip-hostname-check".
Proof.
  intros H. apply AUTH_PARAM_MAPPING_lookup in H.
  repeat (apply elem_of_cons in H as [[= -> ->]|H]; [done|]).
  by apply not_elem_of_nil in H.
Qed.

Lemma AUTH_PARAM_MAPPING_inj key key' option :
  AUTH_PARAM_MAPPING !! key = Some option →
  AUTH_PARAM_MAPPING !! key' = Some option →
  key = key'.
Proof.
  intros H H'. apply AUTH_PARAM_MAPPING_lookup in H, H'.
  repeat (apply elem_of_cons in H as [H|H];
          [simplify_eq;
           repeat (apply elem_of_cons in H' as [H'|H']; [by simplify_eq|]);
           by apply not_elem_of_nil in H'|]).
  by apply not_elem_of_nil in H.
Qed.

(** X11: [_get_auth_options] holds a value under an option exactly when
    some connection parameter mapped to that option has that value and the
    value is not [None]: parameters that are [None] or have no mapping are
    dropped, and nothing else is added. *)
Theorem auth_options_are_mapped_params auth_params option v :
  _get_auth_options auth_params !! option = Some v ↔
  ∃ key, AUTH_PARAM_MAPPING !! key = Some option
         ∧ auth_params !! key = Some v
         ∧ v ≠ PNone.
Proof.
  revert option v. unfold _get_auth_options.
  apply (map_fold_weak_ind
           (fun (r : gmap string PyVal) (m : gmap string PyVal) =>
              ∀ option v,
                r !! option = Some v ↔
                ∃ key, AUTH_PARAM_MAPPING !! key = Some option
                       ∧ m !! key = Some v ∧ v ≠ PNone)).
  { intros option v. rewrite lookup_empty. split; [done|].
    intros (key & _ & H & _). by rewrite lookup_empty in H. }
  intros i x m r Hfresh IH.
  (* a parameter that adds nothing *)
  assert ((x = PNone ∨ AUTH_PARAM_MAPPING !! i = None) →
          ∀ option v,
            r !! option = Some v ↔
            ∃ key, AUTH_PARAM_MAPPING !! key = Some option
                   ∧ <[i:=x]> m !! key = Some v ∧ v ≠ PNone) as Hskip.
  { intros Hx option v. rewrite IH. split.
    - intros (key & Hmap & Hm & Hv). exists key.
      split; [done|]. split; [|done].
      rewrite lookup_insert_ne; [done|]. intros ->. congruence.
    - intros (key & Hmap & Hm & Hv). exists key. split; [done|].
      split; [|done]. destruct (decide (i = key)) as [->|Hne].
      + rewrite lookup_insert_eq in Hm. injection Hm as ->.
        destruct Hx as [->|Hx]; [done|congruence].
      + by rewrite lookup_insert_ne in Hm. }
  (* a parameter that is written under its option *)
  assert (x ≠ PNone →
          ∀ flag, AUTH_PARAM_MAPPING !! i = Some flag →
          ∀ option v,
            <[flag:=x]> r !! option = Some v ↔
            ∃ key, AUTH_PARAM_MAPPING !! key = Some option
                   ∧ <[i:=x]> m !! key = Some v ∧ v ≠ PNone) as Hwrite.
  { intros Hx flag Hflag option v. split.
    - destruct (decide (flag = option)) as [<-|Hne].
      + rewrite lookup_insert_eq. intros [= <-]. exists i.
        by rewrite lookup_insert_eq.
      + rewrite lookup_insert_ne by done. rewrite IH.
        intros (key & Hmap & Hm & Hv). exists key. split; [done|].
        split; [|done]. rewrite lookup_insert_ne; [done|].
        intros ->. congruence.
    - intros (key & Hmap & Hm & Hv).
      destruct (decide (i = key)) as [<-|Hne].
      + rewrite lookup_insert_eq in Hm. injection Hm as <-.
        rewrite Hflag in Hmap. injection Hmap as <-.
        apply lookup_insert_eq.
      + rewrite lookup_insert_ne in Hm by done.
        rewrite lookup_insert_ne.
        * apply IH. by exists key.
        * intros <-. apply Hne.
          by apply (AUTH_PARAM_MAPPING_inj _ _ flag). }
  destruct (AUTH_PARAM_MAPPING !! i) as [flag|] eqn:Hflag.
  - destruct (AUTH_PARAM_MAPPING_option _ _ Hflag) as [Hne _].
    rewrite (bool_decide_eq_true_2 _ Hne).
    destruct x; [apply Hskip; by left|by apply Hwrite..].
  - destruct x; apply Hskip; by right.
Qed.

Lemma attr_insert_ne params key v name :
  key ≠ name → attr (<[key := v]> params) name = attr params name.
Proof. intros Hne. unfold attr. by rewrite lookup_insert_ne. Qed.

Lemma auth_options_not (auth_params : gmap string PyVal) option :
  (∀ key, AUTH_PARAM_MAPPING !! key ≠ Some option) →
  _get_auth_options auth_params !! option = None.
Proof.
  intros Hnot. destruct (_ !! option) as [v|] eqn:E; [|done].
  apply auth_options_are_mapped_params in E as (key & Hmap & _).
  by destruct (Hnot key).
Qed.

Lemma auth_options_no_file auth_params :
  _get_auth_options auth_params !! "--file" = None
  ∧ _get_auth_options auth_params !! "--project-name" = None
  ∧ _get_auth_options auth_params !! "--skip-hostname-check" = None.
Proof.
  repeat split; apply auth_options_not; intros key H;
    by destruct (AUTH_PARAM_MAPPING_option _ _ H) as (_ & ? & ? & ?).
Qed.

(** X12: the [files] parameter never reaches compose: the options do not
    depend on it, and for parameters named as in the argument spec they
    never hold [--file], since [__init__] reads [project_files], a name
    under which no parameter is set. *)
Theorem files_never_reach_compose auth_params params :
  (∀ key, is_Some (params !! key) → key ∈ argument_spec) →
  build_options auth_params params !! "--file" = None
  ∧ ∀ v, build_options auth_params (<["files" := v]> params)
         = build_options auth_params params.
Proof.
  intros Hspec. split.
  - assert (attr params "project_files" = PNone) as Hfiles.
    { unfold attr. destruct (params !! "project_files") as [v|] eqn:E; [|done].
      assert ("project_files" ∈ argument_spec) as Hin
        by (apply Hspec; by eexists).
      unfold argument_spec in Hin.
      repeat (apply elem_of_cons in Hin as [Hin|Hin]; [done|]).
      by apply not_elem_of_nil in Hin. }
    unfold build_options. cbv zeta. rewrite Hfiles. cbn [truthy].
    destruct (auth_options_no_file auth_params) as (Hf & _ & _).
    rewrite (right_id_L ∅ (∪) (_get_auth_options auth_params)).
    destruct (truthy (attr params "project_name"));
      by rewrite ?lookup_insert_ne by done.
  - intros v. unfold build_options.
    by rewrite !attr_insert_ne by done.
Qed.

Lemma files_never_reach_compose_witness :
  (∀ key, is_Some (inline_params !! key) → key ∈ argument_spec)
  ∧ build_options sample_auth inline_params !! "--file" = None.
Proof.
  assert (∀ key, is_Some (inline_params !! key) → key ∈ argument_spec)
    as Hspec.
  { intros key [v Hv]. unfold inline_params in Hv.
    repeat (apply lookup_insert_Some in Hv as [[<- _]|[_ Hv]];
            [unfold argument_spec; set_solver|]).
    apply lookup_singleton_Some in Hv as [<- _].
    unfold argument_spec. set_solver. }
  split; [done|].
  by apply (files_never_reach_compose sample_auth inline_params).
Defined.

(** X13: the options keep every connection option as
    [_get_auth_options] gives it, always hold [--skip-hostname-check] with
    the negation of [hostname_check], and hold [--project-name] exactly
    when a project name is given. *)
Theorem options_keep_auth_and_name auth_params params :
  (∀ option v, _get_auth_options auth_params !! option = Some v →
               build_options auth_params params !! option = Some v)
  ∧ build_options auth_params params !! "--skip-hostname-check"
    = Some (PBool (negb (truthy (attr params "hostname_check"))))
  ∧ build_options auth_params params !! "--project-name"
    = (if truthy (attr params "project_name")
       then Some (attr params "project_name") else None).
Proof.
  destruct (auth_options_no_file auth_params) as (Hf & Hn & Hs).
  unfold build_options. cbv zeta.
  rewrite (right_id_L ∅ (∪) (_get_auth_options auth_params)).
  split; [|split].
  - intros option v Hv.
    assert ("--file" ≠ option ∧ "--project-name" ≠ option
            ∧ "--skip-hostname-check" ≠ option) as (? & ? & ?)
      by (repeat split; intros <-; congruence).
    destruct (truthy (attr params "project_files")),
      (truthy (attr params "project_name"));
      by rewrite ?lookup_insert_ne by done.
  - destruct (truthy (attr params "project_files")),
      (truthy (attr params "project_name"));
      rewrite ?lookup_insert_ne by done; apply lookup_insert_eq.
  - destruct (truthy (attr params "project_files")),
      (truthy (attr params "project_name"));
      rewrite ?lookup_insert_ne by done;
      by rewrite ?lookup_insert_eq.
Qed.
(** ** The files of an inline definition *)

(** A manager built from an inline definition has the temporary directory
    as its [project_src], and its compose file was opened and written
    without an exception. *)
Lemma init_ready_definition env auth_params params src options loaded ops :
  truthy (attr params "definition") = true →
  init env auth_params params = Ready src options loaded ops →
  ∃ dir,
    let file := path_join env dir "docker-compose.yml" in
    mkdtemp env = inr dir
    ∧ src = PStr dir
    ∧ ops = [MkDTemp dir; WriteFile file]
    ∧ truthy (attr params "project_name") = true
    ∧ dump_raises env (attr params "definition") = None
    ∧ open_raises env file = None
    ∧ write_raises env file (attr params "definition") = None.
Proof.
  intros Hdef. unfold init, load_project, write_definition. cbv zeta.
  rewrite Hdef.
  destruct (HAS_COMPOSE env); cbn [negb]; [|done].
  destruct (truthy (attr params "project_name")); cbn [negb]; [|done].
  destruct (mkdtemp env) as [exc|dir]; [done|].
  destruct (dump_raises env _) as [exc|] eqn:Hd; [done|].
  destruct (open_raises env _) as [exc|] eqn:Ho; [done|]. cbn [fst snd].
  destruct (write_raises env _ _) as [exc|] eqn:Hw; [done|].
  destruct (project_from_options env _ _); [done|].
  intros [= <- _ _ <-]. by exists dir.
Qed.


(** X15: the files [__init__] has written for an inline definition are the
    ones [exec_module] removes, the file first and then the directory, and
    only when the command has returned: when the command fails, nothing is
    removed and the directory stays behind; when a removal raises, the
    exception escapes and the result is not returned. *)
Theorem definition_files_removed_on_return
    env auth_params params src options loaded ops rt self w :
  truthy (attr params "definition") = true →
  init env auth_params params = Ready src options loaded ops →
  ∃ dir file,
    src = PStr dir
    ∧ ops = [MkDTemp dir; WriteFile file]
    ∧ match exec_module rt self w with
      | Failed msg w' =>
        exec_module_files env rt self (attr params "definition") dir w
        = (Exited msg, w', [])
      | Ok result w' =>
        ∃ out removed,
          exec_module_files env rt self (attr params "definition") dir w
          = (out, w', removed)
          ∧ (removed = [Remove file; Rmdir dir]
             ∨ (removed = [Remove file] ∧ is_Some (remove_raises env file)))
          ∧ (out = Returned result ↔
             remove_raises env file = None ∧ rmdir_raises env dir = None)
      end.
Proof.
  intros Hdef Hinit.
  destruct (init_ready_definition env auth_params params src options loaded
              ops Hdef Hinit) as (dir & _ & -> & -> & _).
  exists dir, (path_join env dir "docker-compose.yml").
  split; [done|]. split; [done|].
  unfold exec_module_files. rewrite Hdef.
  destruct (exec_module rt self w) as [result w'|msg w']; [|done].
  cbv zeta. destruct (remove_raises env _) as [exc|].
  - eexists _, _. split; [done|]. split; [right; by eauto|].
    split; [done|]. by intros [? _].
  - destruct (rmdir_raises env _) as [exc|].
    + eexists _, _. split; [done|]. split; [by left|].
      split; [done|]. by intros [_ ?].
    + eexists _, _. split; [done|]. split; [by left|]. done.
Qed.

Lemma definition_files_removed_on_return_witness :
  (truthy (attr inline_params "definition") = true
   ∧ init sample_env sample_auth inline_params
     = Ready (PStr "/tmp/ansible1")
             (build_options sample_auth inline_params) demo
             [MkDTemp "/tmp/ansible1";
              WriteFile "/tmp/ansible1/docker-compose.yml"])
  ∧ ∃ dir file,
      PStr "/tmp/ansible1" = PStr dir
      ∧ [MkDTemp "/tmp/ansible1";
         WriteFile "/tmp/ansible1/docker-compose.yml"]
        = [MkDTemp dir; WriteFile file]
      ∧ match exec_module broken defaults (fresh ∅) with
        | Failed msg w' =>
          exec_module_files sample_env broken defaults
            (attr inline_params "definition") dir (fresh ∅)
          = (Exited msg, w', [])
        | Ok result w' =>
          ∃ out removed,
            exec_module_files sample_env broken defaults
              (attr inline_params "definition") dir (fresh ∅)
            = (out, w', removed)
            ∧ (removed = [Remove file; Rmdir dir]
               ∨ (removed = [Remove file]
                  ∧ is_Some (remove_raises sample_env file)))
            ∧ (out = Returned result ↔
               remove_raises sample_env file = None
               ∧ rmdir_raises sample_env dir = None)
        end.
Proof.
  assert (init sample_env sample_auth inline_params
          = Ready (PStr "/tmp/ansible1")
                  (build_options sample_auth inline_params) demo
                  [MkDTemp "/tmp/ansible1";
                   WriteFile "/tmp/ansible1/docker-compose.yml"]) as Hinit
    by reflexivity.
  split; [split; [reflexivity|exact Hinit]|].
  exact (definition_files_removed_on_return sample_env sample_auth
           inline_params _ _ _ _ broken defaults (fresh ∅) eq_refl Hinit).
Defined.

(** ** Modifiers after the convergence pass *)

Lemma bind_inv {A B : Type} (m : M A) (f : A → M B) w b w' :
  (m ≫= f) w = Ok b w' → ∃ a w1, m w = Ok a w1 ∧ f a w1 = Ok b w'.
Proof.
  unfold mbind, M_bind. destruct (m w) as [a w1|]; [|done]. by eauto.
Qed.

(** The calls of a run that returns have all returned. *)
Lemma returned_calls rt self {A : Type} (m : M A) w a w' :
  traced rt self m → m w = Ok a w' →
  ∃ calls, trace w' = trace w ++ calls
           ∧ completes rt (snapshot w) calls (snapshot w').
Proof. intros Hm Hrun. specialize (Hm w). by rewrite Hrun in Hm. Qed.

(** A modifier of [cmd_up] that returns: when it is set, its command has
    returned and the result is updated with what it returned; when it is
    not, nothing happens. *)
Lemma modifier_inv rt self (b : bool) (cmd : M Result) (result r : Result)
    w w' :
  traced rt self cmd →
  (if b then other ← cmd; mret (update result other) else mret result) w
  = Ok r w' →
  (∃ calls, trace w' = trace w ++ calls
            ∧ completes rt (snapshot w) calls (snapshot w'))
  ∧ if b then ∃ other, cmd w = Ok other w' ∧ r = update result other
    else r = result ∧ w' = w.
Proof.
  intros Hcmd Hrun. destruct b.
  - apply bind_inv in Hrun as (other & w1 & Hother & [= <- <-]).
    split; [by eapply returned_calls|by eauto].
  - injection Hrun as <- <-. split; [|done].
    exists []. split; [by rewrite app_nil_r|constructor].
Qed.

Lemma changed_diff_of_merged (result : Result) pass f :
  changed_of (<["ansible_facts" := VFacts f]>
                (update result (pass_result pass))) = Some pass.1
  ∧ diff_of (<["ansible_facts" := VFacts f]>
               (update result (pass_result pass))) = Some pass.2.
Proof.
  destruct (facts_insert_keeps (update result (pass_result pass)) f)
    as [-> ->].
  destruct (update_pass_result result pass) as (-> & -> & _). done.
Qed.

(** Every run of [cmd_up] that returns: the [changed] and the [diff] of its
    result are those that the last modifier that is set has returned, that
    modifier having run on the containers as the calls before it left them;
    with no modifier they are those of the convergence pass. *)
Lemma cmd_up_merges rt self w r w' :
  cmd_up rt self w = Ok r w' →
  ∃ pass w0 calls,
    changed_of r = Some pass.1
    ∧ diff_of r = Some pass.2
    ∧ trace w0 = trace w ++ calls
    ∧ completes rt (snapshot w) calls (snapshot w0)
    ∧ (if bool_decide (scale self ≠ ∅) then
         cmd_scale rt self w0 = Ok (pass_result pass) w'
       else if restarted self then
         cmd_restart rt self (service_names self) w0
         = Ok (pass_result pass) w'
       else if stopped self then
         cmd_stop rt self (service_names self) w0 = Ok (pass_result pass) w'
       else pass = up_pass self (snapshot w)).
Proof.
  intros Hrun. pose proof Hrun as Hall. unfold cmd_up in Hrun. cbv zeta in Hrun.
  apply bind_inv in Hrun as (snap & w1 & [= <- <-] & Hrun).
  apply bind_inv in Hrun as ([] & w2 & Hcall & Hrun).
  apply bind_inv in Hrun as (r1 & w3 & Hstop & Hrun).
  apply bind_inv in Hrun as (r2 & w4 & Hrestart & Hrun).
  apply bind_inv in Hrun as (r3 & w5 & Hscale & Hrun).
  apply bind_inv in Hrun as (snap' & w6 & [= <- <-] & [= <- <-]).
  eapply returned_calls in Hcall as (calls1 & Ht1 & Hc1);
    [|by apply (traced_call rt self)].
  eapply modifier_inv in Hstop as [(calls2 & Ht2 & Hc2) Hstop];
    [|apply traced_cmd_stop].
  eapply modifier_inv in Hrestart as [(calls3 & Ht3 & Hc3) Hrestart];
    [|apply traced_cmd_restart].
  eapply modifier_inv in Hscale as [_ Hscale]; [|apply traced_cmd_scale].
  destruct (bool_decide (scale self ≠ ∅)) eqn:Hsc.
  { destruct Hscale as (other & Hother & ->).
    destruct (ensures_cmd_scale rt self (fun _ => True)
                ltac:(done) I w4 other w5 Hother) as (pass & -> & _).
    exists pass, w4, (calls1 ++ calls2 ++ calls3).
    destruct (changed_diff_of_merged r2 pass (collect_facts self (snapshot w5)))
      as [-> ->].
    split; [done|]. split; [done|].
    split; [by rewrite Ht3, Ht2, Ht1, !app_assoc|].
    split; [|done]. eapply completes_app; [done|]. by eapply completes_app. }
  destruct Hscale as [-> ->].
  destruct (restarted self) eqn:Hre.
  { destruct Hrestart as (other & Hother & ->).
    destruct (ensures_cmd_restart rt self (service_names self) w3 other w4
                Hother) as (snap & ->).
    eexists _, w3, (calls1 ++ calls2).
    destruct (changed_diff_of_merged r1
                (targets_pass self "restart" true (service_names self) snap)
                (collect_facts self (snapshot w4))) as [-> ->].
    split; [done|]. split; [done|].
    split; [by rewrite Ht2, Ht1, !app_assoc|].
    split; [|done]. by eapply completes_app. }
  destruct Hrestart as [-> ->].
  destruct (stopped self) eqn:Hst.
  { destruct Hstop as (other & Hother & ->).
    destruct (ensures_cmd_stop rt self (service_names self) w2 other w3
                Hother) as (snap & ->).
    eexists _, w2, calls1.
    destruct (changed_diff_of_merged
                (<["ansible_facts" := VFacts ∅]>
                   (result_dict (up_pass self (snapshot w)).1
                                (up_pass self (snapshot w)).2))
                (targets_pass self "stop" false (service_names self) snap)
                (collect_facts self (snapshot w3))) as [-> ->].
    done. }
  apply bool_decide_eq_false in Hsc.
  assert (scale self = ∅) as Hempty
    by (destruct (decide (scale self = ∅)); [done|by destruct Hsc]).
  destruct (cmd_up_plain rt self w _ _ Hst Hre Hempty Hall) as [Hch Hdf].
  exists (up_pass self (snapshot w)), w, [].
  split; [done|]. split; [done|]. split; [by rewrite app_nil_r|].
  split; [constructor|done].
Qed.

(** C10: a result updated with the result of a modifier has the [changed]
    and the [diff] of the modifier and keeps its facts; [cmd_up] merges its
    modifiers in this way, on every runtime and in either mode: the
    [changed] and [diff] it returns are those returned by the last
    modifier that is set, in the order scale, restarted, stopped, which ran
    on the containers as the calls before it left them, and those of the
    convergence pass when no modifier is set.  So, on two exited
    containers, the convergence pass finds a change and [cmd_up] with
    [stopped] returns unchanged, in check mode on every runtime and, once
    [project.up] has been called, on a runtime that starts nothing; and on
    a converged project [cmd_up] with [restarted] returns changed although
    the convergence pass found nothing. *)
Theorem modifier_replaces_changed :
  (∀ (result : Result) pass,
     changed_of (update result (pass_result pass)) = Some pass.1
     ∧ diff_of (update result (pass_result pass)) = Some pass.2
     ∧ facts_of (update result (pass_result pass)) = facts_of result)
  ∧ (∀ rt self w r w',
       cmd_up rt self w = Ok r w' →
       ∃ pass w0 calls,
         changed_of r = Some pass.1
         ∧ diff_of r = Some pass.2
         ∧ trace w0 = trace w ++ calls
         ∧ completes rt (snapshot w) calls (snapshot w0)
         ∧ (if bool_decide (scale self ≠ ∅) then
              cmd_scale rt self w0 = Ok (pass_result pass) w'
            else if restarted self then
              cmd_restart rt self (service_names self) w0
              = Ok (pass_result pass) w'
            else if stopped self then
              cmd_stop rt self (service_names self) w0
              = Ok (pass_result pass) w'
            else pass = up_pass self (snapshot w)))
  ∧ (∀ rt self w,
       check_mode self = true ∨ inert rt →
       ∃ r w', cmd_up rt self w = Ok r w'
               ∧ changed_of r = Some (last_pass self (snapshot w)).1
               ∧ diff_of r = Some (last_pass self (snapshot w)).2)
  ∧ (up_pass stopping exited_snapshot).1 = true
  ∧ (∀ rt, ∃ r,
       cmd_up rt (with_check_mode true stopping) (fresh exited_snapshot)
       = Ok r (fresh exited_snapshot)
       ∧ changed_of r = Some false)
  ∧ changed_of <$> value_of (cmd_up idle stopping (fresh exited_snapshot))
    = Some (Some false)
  ∧ trace (world_of (cmd_up idle stopping (fresh exited_snapshot)))
    = [ProjectUp [] true (up_options stopping) true false]
  ∧ (up_pass restarting converged_snapshot).1 = false
  ∧ changed_of <$> value_of (cmd_up idle restarting (fresh converged_snapshot))
    = Some (Some true)
  ∧ trace (world_of (cmd_up idle restarting (fresh converged_snapshot)))
    = [ProjectRestart []].
Proof.
  split; [apply update_pass_result|].
  split; [apply cmd_up_merges|].
  split.
  { intros rt self w Hq.
    destruct (quiet_cmd_up rt self Hq w) as (w' & Hrun & _).
    exists (up_result self (snapshot w)), w'.
    split; [done|]. apply up_result_last_pass. }
  split; [by vm_compute|].
  split.
  { intros rt.
    destruct (quiet_cmd_up rt (with_check_mode true stopping)
                (or_introl eq_refl) (fresh exited_snapshot))
      as (w' & Heq & _ & Hw).
    rewrite (Hw eq_refl) in Heq. eexists. split; [exact Heq|].
    by vm_compute. }
  repeat split; by vm_compute.
Qed.

Lemma modifier_replaces_changed_witness :
  (cmd_up idle stopping (fresh exited_snapshot)
   = Ok (up_result stopping exited_snapshot)
        (issued (ProjectUp [] true (up_options stopping) true false)
                exited_snapshot (fresh exited_snapshot))
   ∧ ∃ pass w0 calls,
       changed_of (up_result stopping exited_snapshot) = Some pass.1
       ∧ diff_of (up_result stopping exited_snapshot) = Some pass.2
       ∧ trace w0 = trace (fresh exited_snapshot) ++ calls
       ∧ completes idle (snapshot (fresh exited_snapshot)) calls (snapshot w0)
       ∧ (if bool_decide (scale stopping ≠ ∅) then
            cmd_scale idle stopping w0
            = Ok (pass_result pass)
                 (issued (ProjectUp [] true (up_options stopping) true false)
                         exited_snapshot (fresh exited_snapshot))
          else if restarted stopping then
            cmd_restart idle stopping (service_names stopping) w0
            = Ok (pass_result pass)
                 (issued (ProjectUp [] true (up_options stopping) true false)
                         exited_snapshot (fresh exited_snapshot))
          else if stopped stopping then
            cmd_stop idle stopping (service_names stopping) w0
            = Ok (pass_result pass)
                 (issued (ProjectUp [] true (up_options stopping) true false)
                         exited_snapshot (fresh exited_snapshot))
          else pass = up_pass stopping (snapshot (fresh exited_snapshot))))
  ∧ ((check_mode checking = true ∨ inert broken)
     ∧ ∃ r w', cmd_up broken checking (fresh converged_snapshot) = Ok r w'
               ∧ changed_of r
                 = Some (last_pass checking
                           (snapshot (fresh converged_snapshot))).1
               ∧ diff_of r
                 = Some (last_pass checking
                           (snapshot (fresh converged_snapshot))).2).
Proof.
  assert (cmd_up idle stopping (fresh exited_snapshot)
          = Ok (up_result stopping exited_snapshot)
               (issued (ProjectUp [] true (up_options stopping) true false)
                       exited_snapshot (fresh exited_snapshot))) as Hrun
    by reflexivity.
  split; [split; [exact Hrun|]|split; [by left|]].
  - exact (proj1 (proj2 modifier_replaces_changed) idle stopping
             (fresh exited_snapshot) _ _ Hrun).
  - exact (proj1 (proj2 (proj2 modifier_replaces_changed)) broken checking
             (fresh converged_snapshot) (or_introl eq_refl)).
Defined.
